(** * Covariance spectrum: a shallow embedding of [stingray/covariancespectrum.py]

    The Python class [Covariancespectrum] runs, inside its constructor, the
    pipeline

      [_construct_energy_events] -> [_update_energy_events] -> [_construct_energy_covar]

    over a two-column array of (time of arrival, photon energy) rows.

    Numbers.  Times and energies are Python/numpy floats.  They are embedded
    as exact rationals [Q]: [+], [-], [*0.5], [/2] are the rational operations
    and the comparisons [==], [<], [<=], [>=] are [Qeq_bool], [Qle_bool] and
    their combinations.  Rounding is therefore not part of the model.

    Dictionaries.  [self.energy_events], [energy_events_] and
    [self.energy_covar] are Python dicts keyed by floats.  They are embedded
    as association lists whose keys are compared with [Qeq_bool] (Python
    compares float keys by value) and which are iterated in insertion order,
    as dicts are since Python 3.7.

    Exceptions.  A small error monad [result] carries the exception a call
    raises. *)

From Stdlib Require Import List Bool Arith Lia QArith Qminmax Qround Lqa.
From Stdlib Require Import Sorting.Sorted Sorting.Permutation.
From Stdlib Require Import Morphisms Setoid.
Import ListNotations.

Open Scope Q_scope.

(** ** Exceptions and the error monad *)

(** [AssertionError], [ValueError] and [KeyError] are the built-in classes the
    module's statements can raise ([assert], a numpy reduction over an empty
    array, a dict subscript).  [InsufficientDataError] and [InvalidInputError]
    are only names of the documented error taxonomy; no statement of the module
    raises them. *)
Inductive exception : Type :=
| AssertionError
| ValueError
| KeyError
| InsufficientDataError
| InvalidInputError.

Inductive result (A : Type) : Type :=
| Return (a : A)
| Raise (e : exception).

Arguments Return {A} a.
Arguments Raise {A} e.

Definition bind {A B : Type} (m : result A) (k : A -> result B) : result B :=
  match m with
  | Return a => k a
  | Raise e => Raise e
  end.

Notation "x <- m ;; k" := (bind m (fun x => k))
  (at level 61, m at next level, right associativity).
Notation "m ;;; k" := (bind m (fun _ => k))
  (at level 61, right associativity).

(** [assert c] *)
Definition py_assert (c : bool) : result unit :=
  if c then Return tt else Raise AssertionError.

(** ** Python dicts with float keys *)

Module Dict.
Section Dict.
Context {V : Type}.

Definition t := list (Q * V).

Definition keys (d : t) : list Q := map fst d.
Definition values (d : t) : list V := map snd d.
Definition items (d : t) : list (Q * V) := d.

(** [d[k]] *)
Fixpoint get (d : t) (k : Q) : option V :=
  match d with
  | [] => None
  | (k', v) :: d' => if Qeq_bool k' k then Some v else get d' k
  end.

Definition getitem (d : t) (k : Q) : result V :=
  match get d k with
  | Some v => Return v
  | None => Raise KeyError
  end.

(** [d[k] = v]: an existing key keeps its position, a new key goes last. *)
Fixpoint set (d : t) (k : Q) (v : V) : t :=
  match d with
  | [] => [(k, v)]
  | (k', v') :: d' =>
      if Qeq_bool k' k then (k', v) :: d' else (k', v') :: set d' k v
  end.

(** [del d[k]] *)
Fixpoint del (d : t) (k : Q) : result t :=
  match d with
  | [] => Raise KeyError
  | (k', v') :: d' =>
      if Qeq_bool k' k then Return d'
      else d'' <- del d' k ;; Return ((k', v') :: d'')
  end.

(** [d.update(d2)] *)
Definition update (d d2 : t) : t :=
  fold_left (fun acc kv => set acc (fst kv) (snd kv)) d2 d.

(** No two entries have equal keys. *)
Inductive wf : t -> Prop :=
| wf_nil : wf []
| wf_cons k v d : get d k = None -> wf d -> wf ((k, v) :: d).
End Dict.
Arguments t : clear implicits.
End Dict.

(** ** numpy and built-in helpers *)

(** [sorted(l)]: ascending, stable. *)
Fixpoint insert_sorted (x : Q) (l : list Q) : list Q :=
  match l with
  | [] => [x]
  | y :: l' => if Qle_bool y x then y :: insert_sorted x l' else x :: l
  end.

Definition sorted (l : list Q) : list Q :=
  fold_left (fun acc x => insert_sorted x acc) l [].

(** [np.unique(a)]: the sorted distinct values of [a]. *)
Fixpoint insert_unique (x : Q) (l : list Q) : list Q :=
  match l with
  | [] => [x]
  | y :: l' =>
      match x ?= y with
      | Lt => x :: l
      | Eq => l
      | Gt => y :: insert_unique x l'
      end
  end.

Definition np_unique (a : list Q) : list Q :=
  fold_right insert_unique [] a.

(** [np.diff(a)]: [a[i+1] - a[i]]. *)
Fixpoint np_diff (a : list Q) : list Q :=
  match a with
  | x :: ((y :: _) as a') => (y - x) :: np_diff a'
  | _ => []
  end.

(** [np.min(a)] / [a.min()] and [np.max(a)]: [ValueError] on an empty array. *)
Definition np_min (a : list Q) : result Q :=
  match a with
  | [] => Raise ValueError
  | x :: a' => Return (fold_left Qmin a' x)
  end.

Definition np_max (a : list Q) : result Q :=
  match a with
  | [] => Raise ValueError
  | x :: a' => Return (fold_left Qmax a' x)
  end.

(** ** Events *)

(** A row of [event_list]: (time of arrival, energy). *)
Definition event : Type := (Q * Q)%type.
Definition toa_of (e : event) : Q := fst e.
Definition energy_of (e : event) : Q := snd e.

(** [event_list[event_list[:, 1].argsort()]]: the rows ordered by energy.
    Rows of equal energy keep their order here; the partitioner sorts every
    list of arrival times it selects, so that order does not reach the
    cells. *)
Fixpoint insert_by_energy (e : event) (l : list event) : list event :=
  match l with
  | [] => [e]
  | e' :: l' =>
      if Qle_bool (energy_of e') (energy_of e) then e' :: insert_by_energy e l'
      else e :: l
  end.

Definition argsort_energy (event_list : list event) : list event :=
  fold_left (fun acc e => insert_by_energy e acc) event_list [].

(** ** [_construct_energy_events] *)

(** [event_list_T[0][np.logical_and(event_list_T[1] >= lo, event_list_T[1] <= hi)]] *)
Definition select_closed (event_list_T : list event) (lo hi : Q) : list Q :=
  map toa_of
    (filter (fun e => Qle_bool lo (energy_of e) && Qle_bool (energy_of e) hi)
       event_list_T).

(** [event_list_T[0][np.logical_and(event_list_T[1] >= lo, event_list_T[1] < hi)]] *)
Definition select_half_open (event_list_T : list event) (lo hi : Q) : list Q :=
  map toa_of
    (filter (fun e => Qle_bool lo (energy_of e) && negb (Qle_bool hi (energy_of e)))
       event_list_T).

(** The first loop: one empty entry per unique energy but the last. *)
Definition init_cells (unique_energy : list Q) (least_count : Q)
  : Dict.t (list Q) :=
  fold_left (fun d u => Dict.set d (u + least_count * (1#2)) [])
    (removelast unique_energy) [].

(** The body of the second loop, for one key. *)
Definition cell_toa (event_list_T : list event) (max_energy least_count energy : Q)
  : list Q :=
  if Qeq_bool energy (max_energy - least_count * (1#2)) then
    sorted (select_closed event_list_T
              (energy - least_count * (1#2)) (energy + least_count * (1#2)))
  else
    sorted (select_half_open event_list_T
              (energy - least_count * (1#2)) (energy + least_count * (1#2))).

Definition _construct_energy_events (max_energy : Q) (event_list_T : list event)
  : result (Dict.t (list Q)) :=
  least_count <- np_min (np_diff (np_unique (map energy_of event_list_T))) ;;
  let unique_energy := np_unique (map energy_of event_list_T) in
  let energy_events := init_cells unique_energy least_count in
  Return
    (fold_left
       (fun d energy =>
          Dict.set d energy (cell_toa event_list_T max_energy least_count energy))
       (Dict.keys energy_events) energy_events).

(** ** Band arguments *)

(** What the caller may pass where a band is expected: a tuple, a list, or an
    object of any other type. *)
Inductive pyobj : Type :=
| PyTuple (xs : list Q)
| PyList (xs : list Q)
| PyOther.

(** [type(o) in (list, tuple)] *)
Definition is_list_or_tuple (o : pyobj) : bool :=
  match o with
  | PyTuple _ | PyList _ => true
  | PyOther => false
  end.

(** [len(o)], used only behind the type assertion. *)
Definition py_len (o : pyobj) : nat :=
  match o with
  | PyTuple xs | PyList xs => length xs
  | PyOther => O
  end.

(** [o[i]], used only behind the two assertions. *)
Definition subscript (o : pyobj) (i : nat) : Q :=
  match o with
  | PyTuple xs | PyList xs => nth i xs 0
  | PyOther => 0
  end.

(** A band that passed the assertions, read as [(band[0], band[1])]. *)
Definition band : Type := (Q * Q)%type.

(** The two assertions of [__init__] on one band-like argument. *)
Definition check_band (o : pyobj) : result band :=
  py_assert (is_list_or_tuple o) ;;;
  py_assert (Nat.eqb (py_len o) 2) ;;;
  Return (subscript o 0, subscript o 1).

Fixpoint check_bands (os : list pyobj) : result (list band) :=
  match os with
  | [] => Return []
  | o :: os' =>
      b <- check_band o ;;
      bs <- check_bands os' ;;
      Return (b :: bs)
  end.

(** [key >= band[0] and key <= band[1]] *)
Definition in_band (b : band) (key : Q) : bool :=
  Qle_bool (fst b) key && Qle_bool key (snd b).

(** [(band[0] + band[1]) / 2] *)
Definition mid_bin (b : band) : Q := (fst b + snd b) / 2.

(** ** [_update_energy_events] *)

Fixpoint foldM {A S : Type} (f : S -> A -> result S) (l : list A) (s : S)
  : result S :=
  match l with
  | [] => Return s
  | a :: l' => s' <- f s a ;; foldM f l' s'
  end.

(** The state of the merge: [(self.energy_events, energy_events_)]. *)
Definition merge_state : Type := (Dict.t (list Q) * Dict.t (list Q))%type.

(** The body of the inner loop, for one key of the snapshot. *)
Definition merge_key (b : band) (st : merge_state) (key : Q) : result merge_state :=
  let '(energy_events, energy_events_) := st in
  if in_band b key then
    cur <- Dict.getitem energy_events_ (mid_bin b) ;;
    v <- Dict.getitem energy_events key ;;
    energy_events' <- Dict.del energy_events key ;;
    Return (energy_events', Dict.set energy_events_ (mid_bin b) (cur ++ v))
  else Return st.

(** The body of the outer loop, for one band. *)
Definition merge_band (st : merge_state) (b : band) : result merge_state :=
  let '(energy_events, energy_events_) := st in
  foldM (merge_key b) (Dict.keys energy_events)
    (energy_events, Dict.set energy_events_ (mid_bin b) []).

Definition _update_energy_events (band_interest : option (list band))
    (energy_events : Dict.t (list Q)) : result (Dict.t (list Q)) :=
  match band_interest with
  | None => Return energy_events
  | Some bands =>
      st <- foldM merge_band bands (energy_events, []) ;;
      Return (Dict.update (fst st) (snd st))
  end.

(** ** [_init_energy_covar] *)

(** A covariance value: a number, or numpy's [nan]. *)
Inductive pyfloat : Type :=
| Num (q : Q)
| NaN.

(** The values of [self.energy_covar]: [None] is the placeholder [[]] the
    initialisation stores, [Some c] a computed covariance. *)
Definition _init_energy_covar (band_interest : option (list band))
    (energy_events : Dict.t (list Q)) : Dict.t (option pyfloat) :=
  match band_interest with
  | None =>
      fold_left (fun d key => Dict.set d key None) (Dict.keys energy_events) []
  | Some bands =>
      fold_left (fun d b => Dict.set d (mid_bin b) None) bands []
  end.

(** ** [np.cov] and [_compute_covariance] *)

Record Lightcurve : Type := { lc_time : list Q; lc_counts : list Q }.

Definition Qsum (x : list Q) : Q := fold_right Qplus 0 x.

Definition mean (x : list Q) : Q := Qsum x / inject_Z (Z.of_nat (length x)).

(** [X -= avg[:, None]], one row. *)
Definition center (x : list Q) : list Q := map (fun v => v - mean x) x.

(** One entry of [dot(X, X.T)]. *)
Definition dot (x y : list Q) : Q :=
  Qsum (map (fun p => fst p * snd p) (combine x y)).

(** [np.cov(m, y)] with the defaults [bias=False], [ddof=None]: the rows [m]
    and [y] are stacked (a [ValueError] when their lengths differ), centred,
    multiplied, and scaled by [1 / fact] with [fact = N - 1]; when [fact <= 0]
    every entry is [nan]. *)
Definition np_cov (m y : list Q) : result (list (list pyfloat)) :=
  if negb (Nat.eqb (length m) (length y)) then Raise ValueError
  else
    let X := [center m; center y] in
    let fact := (Z.of_nat (length m) - 1)%Z in
    if (fact <=? 0)%Z then Return (map (fun _ => map (fun _ => NaN) X) X)
    else
      Return (map (fun r => map (fun r' => Num (dot r r' * (1 / inject_Z fact))) X) X).

(** [np.cov(lc1.counts, lc2.counts)[0][1]] *)
Definition _compute_covariance (lc1 lc2 : Lightcurve) : result pyfloat :=
  c <- np_cov (lc_counts lc1) (lc_counts lc2) ;;
  Return (nth 1 (nth 0 c []) NaN).

(** ** [_construct_energy_covar] and [__init__] *)

(** The attributes the constructor leaves on the object. *)
Record Covariancespectrum_obj : Type := {
  energy_events : Dict.t (list Q);
  energy_covar : Dict.t (option pyfloat);
  covar : list (Q * option pyfloat)
}.

(** [key >= ref[0] and key <= ref[1]], then [key != energy]. *)
Definition in_reference (ref_band_interest : band) (energy key : Q) : bool :=
  in_band ref_band_interest key && negb (Qeq_bool key energy).

(** The loop that fills [toa_ref], followed by [sorted]. *)
Definition toa_ref (energy_events : Dict.t (list Q)) (ref_band_interest : band)
    (energy : Q) : list Q :=
  sorted
    (fold_left
       (fun acc kv =>
          if in_band ref_band_interest (fst kv) then
            if negb (Qeq_bool (fst kv) energy) then acc ++ snd kv else acc
          else acc)
       (Dict.items energy_events) []).

Section Pipeline.

(** [Lightcurve.make_lightcurve(toa, dt, tstart=..., tseg=...)], defined in
    another module of the package. *)
Variable make_lightcurve : list Q -> Q -> Q -> Q -> Lightcurve.

(** The body of the loop of [_construct_energy_covar], for one key. *)
Definition covar_step (energy_events : Dict.t (list Q)) (dt min_time max_time : Q)
    (ref_band_interest : band) (energy_covar : Dict.t (option pyfloat))
    (energy : Q) : result (Dict.t (option pyfloat)) :=
  toa <- Dict.getitem energy_events energy ;;
  let lc := make_lightcurve toa dt min_time (max_time - min_time) in
  let lc_ref :=
    make_lightcurve (toa_ref energy_events ref_band_interest energy)
      dt min_time (max_time - min_time) in
  py_assert (Nat.eqb (length (lc_time lc)) (length (lc_time lc_ref))) ;;;
  covar <- _compute_covariance lc lc_ref ;;
  Return (Dict.set energy_covar energy (Some covar)).

Definition _construct_energy_covar (band_interest : option (list band))
    (energy_events : Dict.t (list Q)) (dt min_time max_time : Q)
    (ref_band_interest : band) : result Covariancespectrum_obj :=
  let energy_covar0 := _init_energy_covar band_interest energy_events in
  energy_covar <-
    foldM (covar_step energy_events dt min_time max_time ref_band_interest)
      (Dict.keys energy_covar0) energy_covar0 ;;
  Return {| energy_events := energy_events;
            energy_covar := energy_covar;
            covar := Dict.items energy_covar |}.

(** What follows the assertions in [__init__]. *)
Definition run_pipeline (event_list : list event) (dt : Q)
    (band_interest : option (list band)) (ref_band_interest : band)
    (max_energy min_time max_time : Q) : result Covariancespectrum_obj :=
  let event_list_T := argsort_energy event_list in
  cells <- _construct_energy_events max_energy event_list_T ;;
  merged <- _update_energy_events band_interest cells ;;
  _construct_energy_covar band_interest merged dt min_time max_time
    ref_band_interest.

(** In place of a 2-element list or tuple the default of [ref_band_interest]
    is the tuple [(min_energy, max_energy)]. *)
Definition Covariancespectrum (event_list : list event) (dt : Q)
    (band_interest : option (list pyobj)) (ref_band_interest : option pyobj)
  : result Covariancespectrum_obj :=
  min_energy <- np_min (map energy_of event_list) ;;
  max_energy <- np_max (map energy_of event_list) ;;
  min_time <- np_min (map toa_of event_list) ;;
  max_time <- np_max (map toa_of event_list) ;;
  let ref_band_interest :=
    match ref_band_interest with
    | None => PyTuple [min_energy; max_energy]
    | Some r => r
    end in
  ref <- check_band ref_band_interest ;;
  bands <-
    match band_interest with
    | Some os => bs <- check_bands os ;; Return (Some bs)
    | None => Return None
    end ;;
  run_pipeline event_list dt bands ref max_energy min_time max_time.

End Pipeline.

(** * Derived notions and concrete inputs *)

(** ** The merge of one band, without the exceptions *)

(** The cells a band takes from a mapping, and the cells it leaves. *)
Definition band_cells (b : band) (d : Dict.t (list Q)) : Dict.t (list Q) :=
  filter (fun kv => in_band b (fst kv)) d.

Definition band_rest (b : band) (d : Dict.t (list Q)) : Dict.t (list Q) :=
  filter (fun kv => negb (in_band b (fst kv))) d.

(** What [merge_band] returns on a mapping without duplicate keys. *)
Definition merge_band_pure (st : merge_state) (b : band) : merge_state :=
  (band_rest b (fst st),
   Dict.set (snd st) (mid_bin b) (concat (Dict.values (band_cells b (fst st))))).

(** [taken_by bands k]: some band of [bands] contains the key [k]. *)
Definition taken_by (bands : list band) (k : Q) : bool :=
  existsb (fun b => in_band b k) bands.

(** The cells that reach band [b] when the bands [earlier] were merged
    before it. *)
Definition band_sources (earlier : list band) (b : band) (d : Dict.t (list Q))
  : Dict.t (list Q) :=
  filter (fun kv => in_band b (fst kv) && negb (taken_by earlier (fst kv))) d.

(** The key of the cell opened at the unique energy [u]. *)
Definition cell_key (least_count u : Q) : Q := u + least_count * (1#2).



(** ** Event lists *)

(** Unique energies {5, 7, 10}: the gaps are 2 and 3, so [least_count = 2]. *)
Definition events_5_7_10 : list event := [(0, 5); (1, 7); (2, 10)].

Definition events_5_7_10_twice : list event :=
  [(10, 7); (11, 10); (12, 5); (13, 10); (14, 7); (15, 5)].

(** Unique energies {1, 2, 3, 4}: evenly spaced, [least_count = 1]. *)
Definition events_1_2_3_4 : list event := [(0, 1); (1, 2); (2, 3); (3, 4); (4, 2)].

(** One energy only. *)
Definition events_one_energy : list event := [(0, 3); (1, 3); (2, 3)].

(** Unique energies {1, 3, 5}, evenly spaced. *)
Definition events_scenario : list event :=
  [(0, 1); (1#2, 1); (1, 3); (3#2, 3); (2, 5)].

(** ** Statements about the merge and the spectrum *)

(** The claim of C3, for two bands [b1], [b2] and the mappings before and
    after the merge: every event time of a cell whose key lies in both bands
    is in the merged list of both. *)
Definition overlap_double_counted (cells merged : Dict.t (list Q)) (b1 b2 : band)
  : Prop :=
  forall key toa t,
    In (key, toa) cells -> in_band b1 key = true -> in_band b2 key = true ->
    In t toa ->
    exists L1 L2,
      Dict.get merged (mid_bin b1) = Some L1 /\
      Dict.get merged (mid_bin b2) = Some L2 /\
      In t L1 /\ In t L2.

(** The number of entries of a dict under a key. *)
Definition entries_under {V : Type} (d : Dict.t V) (k : Q) : nat :=
  length (filter (fun k' => Qeq_bool k' k) (Dict.keys d)).

(** The sample covariance of two series in the words of the specification:
    the sum of the products of the deviations from the two means, divided by
    [N - 1]. *)
Definition sample_covariance (x y : list Q) : Q :=
  Qsum (map (fun p => (fst p - mean x) * (snd p - mean y)) (combine x y))
  / (inject_Z (Z.of_nat (length x)) - 1).

(** Two results of [_compute_covariance] that agree: the same exception, both
    [nan], or two equal numbers. *)
Definition same_covariance (r1 r2 : result pyfloat) : Prop :=
  match r1, r2 with
  | Return (Num a), Return (Num b) => a == b
  | Return NaN, Return NaN => True
  | Raise e1, Raise e2 => e1 = e2
  | _, _ => False
  end.

(** ** Shapes of the band arguments *)

(** A 2-element list or tuple. *)
Definition valid_shape (o : pyobj) : bool :=
  is_list_or_tuple o && Nat.eqb (py_len o) 2.

(** A well-shaped argument read as a band. *)
Definition as_band (o : pyobj) : band := (subscript o 0, subscript o 1).

(** The two groups of assertions of [__init__], as tests. *)
Definition ref_ok (ref_band_interest : option pyobj) : bool :=
  match ref_band_interest with
  | None => true
  | Some r => valid_shape r
  end.

Definition bands_ok (band_interest : option (list pyobj)) : bool :=
  match band_interest with
  | None => true
  | Some os => forallb valid_shape os
  end.

(** ** A series builder *)

(** Modelled from the spec: the light-curve builder
    [Lightcurve.make_lightcurve], which lives in another module of the
    package.  "Given a sorted sequence of event timestamps, a bin width, a
    start time, and a total duration, it returns a uniformly spaced count
    series (one count total per bin) covering [start, start+duration) with
    bins of width dt."  Bin [i] covers [[tstart + i*dt, tstart + (i+1)*dt)];
    its time stamp is the start of the bin. *)
Definition make_lightcurve_model (toa : list Q) (dt tstart tseg : Q) : Lightcurve :=
  let bins := map (fun i => inject_Z (Z.of_nat i))
                (seq 0 (Z.to_nat (Qfloor (tseg / dt)))) in
  {| lc_time := map (fun i => tstart + i * dt) bins;
     lc_counts :=
       map (fun i =>
              inject_Z
                (Z.of_nat
                   (length
                      (filter
                         (fun t => Qle_bool (tstart + i * dt) t &&
                                   negb (Qle_bool (tstart + (i + 1) * dt) t))
                         toa))))
         bins |}.


(** * Properties *)

(** ** Boolean comparisons *)

Lemma Qeq_bool_true (x y : Q) : Qeq_bool x y = true <-> x == y.
Proof. apply Qeq_bool_iff. Qed.

Lemma Qeq_bool_false (x y : Q) : Qeq_bool x y = false <-> ~ x == y.
Proof.
  split.
  - apply Qeq_bool_neq.
  - intros H. destruct (Qeq_bool x y) eqn:E; [|reflexivity].
    apply Qeq_bool_true in E. contradiction.
Qed.

Lemma Qle_bool_true (x y : Q) : Qle_bool x y = true <-> x <= y.
Proof. apply Qle_bool_iff. Qed.

Lemma Qle_bool_false (x y : Q) : Qle_bool x y = false <-> y < x.
Proof.
  split.
  - intros H. apply Qnot_le_lt. intros L. apply Qle_bool_true in L. congruence.
  - intros H. destruct (Qle_bool x y) eqn:E; [|reflexivity].
    apply Qle_bool_true in E. lra.
Qed.

Lemma Qeq_bool_proper_r (a k k' : Q) : k == k' -> Qeq_bool a k = Qeq_bool a k'.
Proof.
  intros H. destruct (Qeq_bool a k') eqn:E.
  - apply Qeq_bool_true in E. apply Qeq_bool_true. lra.
  - apply Qeq_bool_false in E. apply Qeq_bool_false. lra.
Qed.

Lemma in_band_spec (b : band) (k : Q) :
  in_band b k = true <-> fst b <= k /\ k <= snd b.
Proof.
  unfold in_band. rewrite andb_true_iff, !Qle_bool_true. tauto.
Qed.

(** ** Dictionaries *)

Section DictFacts.
Context {V : Type}.
Implicit Types (d : Dict.t V) (k : Q) (v : V).

Lemma get_proper d k k' : k == k' -> Dict.get d k = Dict.get d k'.
Proof.
  intros H. induction d as [|[k0 v0] d IH]; simpl; [reflexivity|].
  rewrite (Qeq_bool_proper_r k0 k k' H), IH. reflexivity.
Qed.

Lemma get_set_same d k v : Dict.get (Dict.set d k v) k = Some v.
Proof.
  induction d as [|[k0 v0] d IH]; simpl.
  - rewrite (proj2 (Qeq_bool_true k k)); [reflexivity | reflexivity].
  - destruct (Qeq_bool k0 k) eqn:E; simpl; rewrite E; [reflexivity | exact IH].
Qed.

Lemma get_set_other d k k' v :
  ~ k == k' -> Dict.get (Dict.set d k v) k' = Dict.get d k'.
Proof.
  intros N. induction d as [|[k0 v0] d IH]; simpl.
  - rewrite (proj2 (Qeq_bool_false k k') N). reflexivity.
  - destruct (Qeq_bool k0 k) eqn:E; simpl.
    + destruct (Qeq_bool k0 k') eqn:E'; [|reflexivity].
      apply Qeq_bool_true in E, E'. exfalso. apply N. lra.
    + rewrite IH. reflexivity.
Qed.

Lemma set_set d k k' v w :
  k == k' -> Dict.set (Dict.set d k v) k' w = Dict.set d k w.
Proof.
  intros H. induction d as [|[k0 v0] d IH]; simpl.
  - rewrite (proj2 (Qeq_bool_true k k') H). reflexivity.
  - destruct (Qeq_bool k0 k) eqn:E; simpl.
    + rewrite <- (Qeq_bool_proper_r k0 k k' H), E. reflexivity.
    + rewrite <- (Qeq_bool_proper_r k0 k k' H), E, IH. reflexivity.
Qed.

Lemma keys_set_present d k v w :
  Dict.get d k = Some w -> Dict.keys (Dict.set d k v) = Dict.keys d.
Proof.
  induction d as [|[k0 v0] d IH]; simpl; [discriminate|].
  destruct (Qeq_bool k0 k) eqn:E; simpl; [reflexivity|].
  intros H. unfold Dict.keys in *. simpl. f_equal. exact (IH H).
Qed.

Lemma set_absent d k v :
  Dict.get d k = None -> Dict.set d k v = d ++ [(k, v)].
Proof.
  induction d as [|[k0 v0] d IH]; simpl; [reflexivity|].
  destruct (Qeq_bool k0 k) eqn:E; [discriminate|].
  intros H. rewrite (IH H). reflexivity.
Qed.

Lemma get_app d1 d2 k :
  Dict.get (d1 ++ d2) k =
    match Dict.get d1 k with Some v => Some v | None => Dict.get d2 k end.
Proof.
  induction d1 as [|[k0 v0] d1 IH]; simpl; [reflexivity|].
  destruct (Qeq_bool k0 k); [reflexivity | exact IH].
Qed.

Lemma del_app_absent d1 d2 k k0 v0 :
  Dict.get d1 k = None -> Qeq_bool k0 k = true ->
  Dict.del (d1 ++ (k0, v0) :: d2) k = Return (d1 ++ d2).
Proof.
  intros H E. induction d1 as [|[k1 v1] d1 IH]; simpl.
  - rewrite E. reflexivity.
  - simpl in H. destruct (Qeq_bool k1 k) eqn:E1; [discriminate|].
    rewrite (IH H). reflexivity.
Qed.

Lemma get_none_filter d k (f : Q * V -> bool) :
  Dict.get d k = None -> Dict.get (filter f d) k = None.
Proof.
  induction d as [|[k0 v0] d IH]; simpl; [reflexivity|].
  destruct (Qeq_bool k0 k) eqn:E; [discriminate|].
  intros H. destruct (f (k0, v0)); simpl; [rewrite E|]; auto.
Qed.

Lemma wf_filter d (f : Q * V -> bool) : Dict.wf d -> Dict.wf (filter f d).
Proof.
  induction 1 as [|k v d H W IH]; simpl; [constructor|].
  destruct (f (k, v)); [|exact IH].
  constructor; [apply get_none_filter; exact H | exact IH].
Qed.

Lemma get_none_app d1 d2 k :
  Dict.get (d1 ++ d2) k = None <-> Dict.get d1 k = None /\ Dict.get d2 k = None.
Proof.
  rewrite get_app. destruct (Dict.get d1 k); split; intros H.
  - discriminate.
  - destruct H; discriminate.
  - auto.
  - tauto.
Qed.

Lemma get_none_sym d k0 v0 k :
  Dict.get d k0 = None -> Qeq_bool k0 k = true -> Dict.get d k = None.
Proof.
  intros H E. apply Qeq_bool_true in E. rewrite <- (get_proper d k0 k E). exact H.
Qed.

Lemma wf_app_inv d1 d2 : Dict.wf (d1 ++ d2) -> Dict.wf d1 /\ Dict.wf d2.
Proof.
  induction d1 as [|[k0 v0] d1 IH]; simpl; intros W.
  - split; [constructor | exact W].
  - inversion W as [|k v d H W' EQ]; subst.
    apply get_none_app in H. destruct H as [H1 H2].
    destruct (IH W') as [W1 W2].
    split; [constructor; assumption | assumption].
Qed.

(** In a well-formed dict the entries before an entry do not carry its key. *)
Lemma wf_app_head_absent d1 d2 k v :
  Dict.wf (d1 ++ (k, v) :: d2) -> Dict.get d1 k = None.
Proof.
  induction d1 as [|[k0 v0] d1 IH]; simpl; intros W; [reflexivity|].
  inversion W as [|k' v' d H W' EQ]; subst.
  destruct (Qeq_bool k0 k) eqn:E.
  - apply get_none_app in H. destruct H as [_ H]. simpl in H.
    apply Qeq_bool_true in E.
    rewrite (proj2 (Qeq_bool_true k k0)) in H by lra. discriminate.
  - apply IH. exact W'.
Qed.

Lemma wf_set d k v : Dict.wf d -> Dict.wf (Dict.set d k v).
Proof.
  induction 1 as [|k0 v0 d H W IH]; simpl.
  - constructor; [reflexivity | constructor].
  - destruct (Qeq_bool k0 k) eqn:E.
    + constructor; assumption.
    + constructor; [|exact IH].
      rewrite get_set_other; [exact H|].
      apply Qeq_bool_false in E. intros C. apply E. lra.
Qed.

Lemma get_update d d2 k :
  Dict.wf d2 ->
  Dict.get (Dict.update d d2) k =
    match Dict.get d2 k with Some v => Some v | None => Dict.get d k end.
Proof.
  intros W. revert d. induction W as [|k0 v0 d2 H W IH]; intros d.
  - reflexivity.
  - unfold Dict.update in *. simpl. rewrite IH.
    destruct (Qeq_bool k0 k) eqn:E.
    + rewrite (get_none_sym d2 k0 v0 k H E).
      apply Qeq_bool_true in E.
      rewrite <- (get_proper _ k0 k E). apply get_set_same.
    + destruct (Dict.get d2 k); [reflexivity|].
      apply get_set_other. apply Qeq_bool_false. exact E.
Qed.

Lemma wf_remove_mid d1 d2 k v : Dict.wf (d1 ++ (k, v) :: d2) -> Dict.wf (d1 ++ d2).
Proof.
  induction d1 as [|[k0 v0] d1 IH]; simpl; intros W.
  - inversion W; assumption.
  - inversion W as [|k' v' d H W' EQ]; subst.
    constructor; [|apply IH; exact W'].
    apply get_none_app in H. destruct H as [H1 H2]. simpl in H2.
    apply get_none_app. split; [exact H1|].
    destruct (Qeq_bool k k0); [discriminate | exact H2].
Qed.

Lemma set_get_same d k v : Dict.get d k = Some v -> Dict.set d k v = d.
Proof.
  induction d as [|[k0 v0] d IH]; simpl; [discriminate|].
  destruct (Qeq_bool k0 k).
  - intros H. congruence.
  - intros H. rewrite (IH H). reflexivity.
Qed.

Lemma getitem_mid d1 d2 k v :
  Dict.wf (d1 ++ (k, v) :: d2) -> Dict.getitem (d1 ++ (k, v) :: d2) k = Return v.
Proof.
  intros W. unfold Dict.getitem. rewrite get_app.
  rewrite (wf_app_head_absent _ _ _ _ W). simpl.
  rewrite (proj2 (Qeq_bool_true k k)) by reflexivity. reflexivity.
Qed.

Lemma del_mid d1 d2 k v :
  Dict.wf (d1 ++ (k, v) :: d2) -> Dict.del (d1 ++ (k, v) :: d2) k = Return (d1 ++ d2).
Proof.
  intros W. apply del_app_absent.
  - exact (wf_app_head_absent _ _ _ _ W).
  - apply Qeq_bool_true. reflexivity.
Qed.
End DictFacts.

(** ** The band merger in closed form *)

Lemma merge_inner (b : band) (rest pre acc : Dict.t (list Q)) (cur : list Q) :
  Dict.wf (pre ++ rest) ->
  Dict.get acc (mid_bin b) = Some cur ->
  foldM (merge_key b) (Dict.keys rest) (pre ++ rest, acc) =
    Return (pre ++ band_rest b rest,
            Dict.set acc (mid_bin b) (cur ++ concat (Dict.values (band_cells b rest)))).
Proof.
  revert pre acc cur. induction rest as [|[k v] rest IH]; intros pre acc cur W G.
  - simpl. rewrite !app_nil_r. rewrite (set_get_same _ _ _ G). reflexivity.
  - simpl. unfold band_rest, band_cells. simpl.
    destruct (in_band b k) eqn:E; simpl.
    + unfold Dict.getitem at 1. rewrite G. simpl.
      rewrite (getitem_mid _ _ _ _ W). simpl.
      rewrite (del_mid _ _ _ _ W). simpl.
      rewrite (IH pre _ (cur ++ v)).
      * rewrite set_set by reflexivity. rewrite app_assoc. reflexivity.
      * exact (wf_remove_mid _ _ _ _ W).
      * apply get_set_same.
    + replace (pre ++ (k, v) :: rest) with ((pre ++ [(k, v)]) ++ rest)
        by (rewrite <- app_assoc; reflexivity).
      rewrite (IH (pre ++ [(k, v)]) acc cur).
      * rewrite <- app_assoc. reflexivity.
      * rewrite <- app_assoc. exact W.
      * exact G.
Qed.

Lemma merge_band_ok (st : merge_state) (b : band) :
  Dict.wf (fst st) -> merge_band st b = Return (merge_band_pure st b).
Proof.
  destruct st as [d acc]. simpl. intros W. unfold merge_band.
  pose proof (merge_inner b d [] (Dict.set acc (mid_bin b) []) [] W
                (get_set_same _ _ _)) as H.
  cbn [app] in H. cbv beta iota. etransitivity; [exact H|].
  unfold merge_band_pure. cbn [fst snd].
  rewrite set_set by reflexivity. reflexivity.
Qed.

Lemma merge_bands_ok (bands : list band) (st : merge_state) :
  Dict.wf (fst st) ->
  foldM merge_band bands st = Return (fold_left merge_band_pure bands st).
Proof.
  revert st. induction bands as [|b bands IH]; intros st W; simpl.
  - reflexivity.
  - rewrite (merge_band_ok st b W). simpl. apply IH.
    simpl. apply wf_filter. exact W.
Qed.

Lemma filter_twice {A : Type} (f g : A -> bool) (l : list A) :
  filter f (filter g l) = filter (fun x => g x && f x) l.
Proof.
  induction l as [|x l IH]; simpl; [reflexivity|].
  destruct (g x); simpl; [destruct (f x)|]; rewrite IH; reflexivity.
Qed.

Lemma merge_pure_live (bands : list band) (d acc : Dict.t (list Q)) :
  fst (fold_left merge_band_pure bands (d, acc)) =
    filter (fun kv => negb (taken_by bands (fst kv))) d.
Proof.
  revert d acc. induction bands as [|b bands IH]; intros d acc; simpl.
  - induction d as [|x d IHd]; simpl; [reflexivity | rewrite <- IHd; reflexivity].
  - unfold merge_band_pure at 2. cbn [fst snd]. rewrite IH.
    unfold band_rest. rewrite filter_twice. apply filter_ext.
    intros [k v]. simpl. rewrite negb_orb. reflexivity.
Qed.

Lemma merge_pure_wf_acc (bands : list band) (st : merge_state) :
  Dict.wf (snd st) -> Dict.wf (snd (fold_left merge_band_pure bands st)).
Proof.
  revert st. induction bands as [|b bands IH]; intros st W; simpl; [exact W|].
  apply IH. simpl. apply wf_set. exact W.
Qed.

Lemma merge_pure_get_other (post : list band) (st : merge_state) (k : Q) :
  (forall b', In b' post -> ~ mid_bin b' == k) ->
  Dict.get (snd (fold_left merge_band_pure post st)) k = Dict.get (snd st) k.
Proof.
  revert st. induction post as [|b post IH]; intros st H; simpl; [reflexivity|].
  rewrite IH by (intros b' I; apply H; right; exact I).
  simpl. apply get_set_other. apply H. left. reflexivity.
Qed.

(** The entry a band holds after the whole merge, when no later band shares
    its midpoint. *)
Lemma merge_pure_entry (pre post : list band) (b : band) (d acc : Dict.t (list Q)) :
  (forall b', In b' post -> ~ mid_bin b' == mid_bin b) ->
  Dict.get (snd (fold_left merge_band_pure (pre ++ b :: post) (d, acc))) (mid_bin b) =
    Some (concat (Dict.values (band_sources pre b d))).
Proof.
  intros H. rewrite fold_left_app. simpl.
  rewrite merge_pure_get_other by exact H.
  unfold merge_band_pure at 1. cbn [snd fst].
  rewrite get_set_same. rewrite merge_pure_live.
  unfold band_cells, band_sources. rewrite filter_twice.
  do 3 f_equal. apply filter_ext. intros [k v]. simpl. apply andb_comm.
Qed.

Lemma update_energy_events_ok (bands : list band) (d : Dict.t (list Q)) :
  Dict.wf d ->
  _update_energy_events (Some bands) d =
    Return (Dict.update (fst (fold_left merge_band_pure bands (d, [])))
              (snd (fold_left merge_band_pure bands (d, [])))).
Proof.
  intros W. unfold _update_energy_events.
  rewrite (merge_bands_ok bands (d, [])) by exact W. reflexivity.
Qed.

Lemma update_energy_events_entry (pre post : list band) (b : band)
    (d : Dict.t (list Q)) :
  Dict.wf d ->
  (forall b', In b' post -> ~ mid_bin b' == mid_bin b) ->
  exists d',
    _update_energy_events (Some (pre ++ b :: post)) d = Return d' /\
    Dict.get d' (mid_bin b) = Some (concat (Dict.values (band_sources pre b d))).
Proof.
  intros W H. eexists. split; [apply update_energy_events_ok; exact W|].
  rewrite get_update by (apply merge_pure_wf_acc; constructor).
  rewrite merge_pure_entry by exact H. reflexivity.
Qed.

(** ** [np.unique], [np.diff], [np.min], [np.max] *)

Lemma insert_unique_in (x u : Q) (l : list Q) :
  In u (insert_unique x l) -> u = x \/ In u l.
Proof.
  induction l as [|y l IH]; simpl.
  - intros [H|[]]. left. symmetry. exact H.
  - destruct (x ?= y); simpl.
    + tauto.
    + intros [H|H]; [left; symmetry; exact H | right; exact H].
    + intros [H|H]; [right; left; exact H|].
      destruct (IH H) as [E|I]; [left; exact E | right; right; exact I].
Qed.

Lemma np_unique_in (a : list Q) (u : Q) : In u (np_unique a) -> In u a.
Proof.
  induction a as [|x a IH]; simpl; [tauto|].
  intros H. apply insert_unique_in in H. destruct H as [E|I].
  - left. symmetry. exact E.
  - right. apply IH. exact I.
Qed.

Lemma insert_unique_sorted (x : Q) (l : list Q) :
  StronglySorted Qlt l -> StronglySorted Qlt (insert_unique x l).
Proof.
  induction 1 as [|y l S IH F]; simpl.
  - constructor; constructor.
  - destruct (x ?= y) eqn:C.
    + constructor; assumption.
    + apply Qlt_alt in C. constructor; [constructor; assumption|].
      constructor; [exact C|].
      eapply Forall_impl; [|exact F]. intros z Hz. simpl in Hz. lra.
    + apply Qgt_alt in C. constructor; [exact IH|].
      apply Forall_forall. intros z Hz. apply insert_unique_in in Hz.
      destruct Hz as [E|I]; [subst; exact C|].
      exact (proj1 (Forall_forall _ _) F z I).
Qed.

Lemma np_unique_sorted (a : list Q) : StronglySorted Qlt (np_unique a).
Proof.
  induction a as [|x a IH]; simpl; [constructor|].
  apply insert_unique_sorted. exact IH.
Qed.

Lemma insert_unique_has (x : Q) (l : list Q) :
  exists u, In u (insert_unique x l) /\ u == x.
Proof.
  induction l as [|y l IH]; simpl.
  - exists x. split; [left; reflexivity | reflexivity].
  - destruct (x ?= y) eqn:C.
    + apply Qeq_alt in C. exists y. split; [left; reflexivity | lra].
    + exists x. split; [left; reflexivity | reflexivity].
    + destruct IH as [u [I E]]. exists u. split; [right; exact I | exact E].
Qed.

Lemma insert_unique_keeps (x z : Q) (l : list Q) :
  In z l -> In z (insert_unique x l).
Proof.
  induction l as [|y l IH]; simpl; [tauto|].
  destruct (x ?= y); simpl; tauto.
Qed.

Lemma np_unique_has (a : list Q) (x : Q) :
  In x a -> exists u, In u (np_unique a) /\ u == x.
Proof.
  induction a as [|y a IH]; simpl; [tauto|].
  intros [E|I].
  - subst. apply insert_unique_has.
  - destruct (IH I) as [u [Iu E]]. exists u. split; [|exact E].
    apply insert_unique_keeps. exact Iu.
Qed.

Lemma np_diff_positive (a : list Q) (x : Q) :
  StronglySorted Qlt a -> In x (np_diff a) -> 0 < x.
Proof.
  induction 1 as [|y l S IH F]; simpl; [tauto|].
  destruct l as [|z l]; simpl; [tauto|].
  intros [E|I].
  - inversion F as [|? ? Hyz ?]; subst. lra.
  - apply IH. exact I.
Qed.

(** Every value but the last has a successor whose gap is in [np.diff]. *)
Lemma np_diff_successor (a : list Q) (u : Q) :
  In u (removelast a) -> exists u', In u' a /\ In (u' - u) (np_diff a).
Proof.
  induction a as [|y l IH]; simpl; [tauto|].
  destruct l as [|z l]; [simpl; tauto|].
  intros [E|I].
  - subst. exists z. split; [right; left; reflexivity | left; reflexivity].
  - destruct (IH I) as [u' [Iu Id]]. exists u'.
    split; [right; exact Iu | right; exact Id].
Qed.

Lemma fold_Qmin_le (l : list Q) (x : Q) :
  fold_left Qmin l x <= x /\ forall y, In y l -> fold_left Qmin l x <= y.
Proof.
  revert x. induction l as [|z l IH]; intros x; simpl.
  - split; [lra | tauto].
  - destruct (IH (Qmin x z)) as [H1 H2].
    pose proof (Q.le_min_l x z). pose proof (Q.le_min_r x z).
    split; [lra|]. intros y [E|I]; [subst; lra | apply H2; exact I].
Qed.

Lemma fold_Qmin_in (l : list Q) (x : Q) :
  fold_left Qmin l x = x \/ In (fold_left Qmin l x) l.
Proof.
  revert x. induction l as [|z l IH]; intros x; simpl; [left; reflexivity|].
  destruct (IH (Qmin x z)) as [E|I]; [|right; right; exact I].
  rewrite E. unfold Qmin, GenericMinMax.gmin.
  destruct (x ?= z); [left | left | right; left]; reflexivity.
Qed.

Lemma fold_Qmax_ge (l : list Q) (x : Q) :
  x <= fold_left Qmax l x /\ forall y, In y l -> y <= fold_left Qmax l x.
Proof.
  revert x. induction l as [|z l IH]; intros x; simpl.
  - split; [lra | tauto].
  - destruct (IH (Qmax x z)) as [H1 H2].
    pose proof (Q.le_max_l x z). pose proof (Q.le_max_r x z).
    split; [lra|]. intros y [E|I]; [subst; lra | apply H2; exact I].
Qed.

Lemma np_min_le (a : list Q) (m : Q) :
  np_min a = Return m -> forall y, In y a -> m <= y.
Proof.
  destruct a as [|x a]; simpl; [discriminate|].
  intros E y. injection E as <-. destruct (fold_Qmin_le a x) as [H1 H2].
  intros [<-|I]; [exact H1 | apply H2; exact I].
Qed.

Lemma np_min_in (a : list Q) (m : Q) : np_min a = Return m -> In m a.
Proof.
  destruct a as [|x a]; simpl; [discriminate|].
  intros E. injection E as <-.
  destruct (fold_Qmin_in a x) as [H|H]; [left; symmetry; exact H | right; exact H].
Qed.

Lemma np_max_ge (a : list Q) (m : Q) :
  np_max a = Return m -> forall y, In y a -> y <= m.
Proof.
  destruct a as [|x a]; simpl; [discriminate|].
  intros E y. injection E as <-. destruct (fold_Qmax_ge a x) as [H1 H2].
  intros [<-|I]; [exact H1 | apply H2; exact I].
Qed.

(** ** The partitioner in closed form *)

Lemma get_cells_none {V : Type} (c k : Q) (f : Q -> V) (l : list Q) :
  Forall (fun u => ~ u + c == k) l ->
  Dict.get (map (fun u => (u + c, f u)) l) k = None.
Proof.
  induction 1 as [|u l N F IH]; simpl; [reflexivity|].
  rewrite (proj2 (Qeq_bool_false (u + c) k) N). exact IH.
Qed.

Lemma init_cells_from (least_count : Q) (l : list Q) (d0 : Dict.t (list Q)) :
  StronglySorted Qlt l ->
  (forall u, In u l -> Dict.get d0 (cell_key least_count u) = None) ->
  fold_left (fun d u => Dict.set d (u + least_count * (1#2)) []) l d0 =
    d0 ++ map (fun u => (cell_key least_count u, [])) l.
Proof.
  intros S. revert d0. induction S as [|u l S IH F]; intros d0 H; simpl.
  - rewrite app_nil_r. reflexivity.
  - rewrite set_absent by (apply (H u); left; reflexivity).
    rewrite IH.
    + rewrite <- app_assoc. reflexivity.
    + intros z Iz. apply get_none_app. split; [apply H; right; exact Iz|].
      simpl. pose proof (proj1 (Forall_forall _ _) F z Iz) as L. simpl in L.
      rewrite (proj2 (Qeq_bool_false _ _)); [reflexivity|].
      unfold cell_key. lra.
Qed.

Lemma in_removelast {A : Type} (y : A) (l : list A) :
  In y (removelast l) -> In y l.
Proof.
  induction l as [|x l IH]; simpl; [tauto|].
  destruct l as [|z l]; [simpl; tauto|].
  intros [E|I]; [left; exact E | right; apply IH; exact I].
Qed.

Lemma removelast_sorted (l : list Q) :
  StronglySorted Qlt l -> StronglySorted Qlt (removelast l).
Proof.
  induction 1 as [|u l S IH F]; simpl; [constructor|].
  destruct l as [|z l]; [constructor|].
  constructor; [exact IH|].
  apply Forall_forall. intros y Iy.
  apply (proj1 (Forall_forall _ _) F). apply in_removelast. exact Iy.
Qed.

Lemma init_cells_closed (unique_energy : list Q) (least_count : Q) :
  StronglySorted Qlt unique_energy ->
  init_cells unique_energy least_count =
    map (fun u => (cell_key least_count u, [])) (removelast unique_energy).
Proof.
  intros S. unfold init_cells.
  rewrite init_cells_from; [reflexivity | apply removelast_sorted; exact S |].
  reflexivity.
Qed.

Lemma cells_wf {V : Type} (least_count : Q) (f : Q -> V) (l : list Q) :
  StronglySorted Qlt l ->
  Dict.wf (map (fun u => (cell_key least_count u, f u)) l).
Proof.
  induction 1 as [|u l S IH F]; simpl; constructor; [|exact IH].
  unfold cell_key. apply get_cells_none.
  eapply Forall_impl; [|exact F]. intros z Hz. simpl in Hz. lra.
Qed.

Lemma set_mid {V : Type} (d1 d2 : Dict.t V) (k : Q) (v w : V) :
  Dict.get d1 k = None ->
  Dict.set (d1 ++ (k, v) :: d2) k w = d1 ++ (k, w) :: d2.
Proof.
  induction d1 as [|[k0 v0] d1 IH]; simpl.
  - rewrite (proj2 (Qeq_bool_true k k)) by reflexivity. reflexivity.
  - destruct (Qeq_bool k0 k); [discriminate|]. intros H. rewrite (IH H). reflexivity.
Qed.

Lemma get_none_map_values {V W : Type} (g : Q -> W) (d : Dict.t V) (k : Q) :
  Dict.get d k = None ->
  Dict.get (map (fun kv => (fst kv, g (fst kv))) d) k = None.
Proof.
  induction d as [|[k0 v0] d IH]; simpl; [reflexivity|].
  destruct (Qeq_bool k0 k); [discriminate | exact IH].
Qed.

(** Assigning [g key] to every key of a well-formed dict, in key order. *)
Lemma assign_all {V : Type} (g : Q -> V) (rest pre : Dict.t V) :
  Dict.wf (pre ++ rest) ->
  fold_left (fun d key => Dict.set d key (g key)) (Dict.keys rest)
    (map (fun kv => (fst kv, g (fst kv))) pre ++ rest) =
    map (fun kv => (fst kv, g (fst kv))) (pre ++ rest).
Proof.
  revert pre. induction rest as [|[k v] rest IH]; intros pre W; simpl.
  - rewrite !app_nil_r. reflexivity.
  - rewrite set_mid
      by (apply get_none_map_values; exact (wf_app_head_absent _ _ _ _ W)).
    assert (W' : Dict.wf ((pre ++ [(k, v)]) ++ rest))
      by (rewrite <- app_assoc; exact W).
    pose proof (IH _ W') as H.
    rewrite map_app in H. rewrite <- !app_assoc in H. exact H.
Qed.

(** The partitioner returns one cell per unique energy but the last, keyed
    [u + least_count/2], as soon as there are two unique energies. *)
Lemma construct_energy_events_closed (max_energy least_count : Q)
    (event_list_T : list event) :
  np_min (np_diff (np_unique (map energy_of event_list_T))) = Return least_count ->
  _construct_energy_events max_energy event_list_T =
    Return
      (map (fun u => (cell_key least_count u,
                      cell_toa event_list_T max_energy least_count
                        (cell_key least_count u)))
         (removelast (np_unique (map energy_of event_list_T)))).
Proof.
  intros E. unfold _construct_energy_events. rewrite E. simpl. f_equal.
  pose proof (np_unique_sorted (map energy_of event_list_T)) as S.
  rewrite init_cells_closed by exact S.
  set (U := removelast (np_unique (map energy_of event_list_T))).
  pose proof (assign_all (cell_toa event_list_T max_energy least_count)
                (map (fun u => (cell_key least_count u, [])) U) []) as A.
  cbn [app map] in A. rewrite A.
  - rewrite map_map. reflexivity.
  - apply (cells_wf least_count (fun _ => [])). apply removelast_sorted. exact S.
Qed.

(** ** [argsort] keeps the rows *)

Lemma insert_by_energy_in (e e' : event) (l : list event) :
  In e' (insert_by_energy e l) <-> e' = e \/ In e' l.
Proof.
  induction l as [|x l IH]; simpl.
  - intuition congruence.
  - destruct (Qle_bool (energy_of x) (energy_of e)); simpl.
    + rewrite IH. intuition congruence.
    + intuition congruence.
Qed.

Lemma argsort_energy_in (event_list : list event) (e : event) :
  In e (argsort_energy event_list) <-> In e event_list.
Proof.
  unfold argsort_energy.
  assert (G : forall acc, In e (fold_left (fun acc e => insert_by_energy e acc)
                                  event_list acc) <-> In e acc \/ In e event_list).
  { induction event_list as [|x l IH]; intros acc; simpl.
    - tauto.
    - rewrite IH, insert_by_energy_in. intuition congruence. }
  rewrite G. simpl. tauto.
Qed.

Lemma filter_all {A : Type} (f : A -> bool) (l : list A) :
  (forall x, In x l -> f x = true) -> filter f l = l.
Proof.
  induction l as [|x l IH]; simpl; intros H; [reflexivity|].
  rewrite (H x) by (left; reflexivity).
  rewrite IH by (intros y I; apply H; right; exact I). reflexivity.
Qed.

Lemma filter_none {A : Type} (f : A -> bool) (l : list A) :
  (forall x, In x l -> f x = true) -> filter (fun x => negb (f x)) l = [].
Proof.
  induction l as [|x l IH]; simpl; intros H; [reflexivity|].
  rewrite (H x) by (left; reflexivity). simpl.
  apply IH. intros y I. apply H. right. exact I.
Qed.

(** Two values that differ force [np.unique] to keep two entries, so the
    array of differences is not empty. *)
Lemma np_diff_nonempty (a : list Q) (x y : Q) :
  In x a -> In y a -> ~ x == y -> np_diff (np_unique a) <> [].
Proof.
  intros Ix Iy N.
  destruct (np_unique_has a x Ix) as [u [Iu Eu]].
  destruct (np_unique_has a y Iy) as [w [Iw Ew]].
  destruct (np_unique a) as [|p [|q l]]; simpl in *.
  - tauto.
  - destruct Iu as [<-|[]]. destruct Iw as [<-|[]]. exfalso. apply N. lra.
  - discriminate.
Qed.

Lemma np_min_nonempty (a : list Q) : a <> [] -> exists m, np_min a = Return m.
Proof.
  destruct a as [|x a]; [congruence|]. intros _. eexists. reflexivity.
Qed.

(** Every cell key lies between the smallest and the largest energy. *)
Lemma cell_key_in_range (event_list_T : list event)
    (min_energy max_energy least_count u : Q) :
  (forall e, In e event_list_T -> min_energy <= energy_of e <= max_energy) ->
  np_min (np_diff (np_unique (map energy_of event_list_T))) = Return least_count ->
  In u (removelast (np_unique (map energy_of event_list_T))) ->
  min_energy <= cell_key least_count u <= max_energy.
Proof.
  intros B E I.
  pose proof (np_unique_sorted (map energy_of event_list_T)) as S.
  pose proof (np_diff_positive _ _ S (np_min_in _ _ E)) as P.
  destruct (np_diff_successor _ _ I) as [u' [Iu' Id]].
  pose proof (np_min_le _ _ E _ Id) as L.
  assert (Bu : forall z, In z (np_unique (map energy_of event_list_T)) ->
                         min_energy <= z <= max_energy).
  { intros z Iz. apply np_unique_in in Iz. apply in_map_iff in Iz.
    destruct Iz as [e [<- Ie]]. apply B. exact Ie. }
  pose proof (Bu u (in_removelast _ _ I)). pose proof (Bu u' Iu').
  unfold cell_key. lra.
Qed.

(** ** The partitioner on unevenly spaced energies (C1, C2) *)

(** C1, at the input [events_5_7_10].  The partitioner returns the two cells
    keyed 6 and 8 holding the arrival times 0 and 1; the arrival time 2 of the
    event of energy 10 is a member of no cell, so the cells' time lists,
    taken together and resorted, are [0; 1] and not the full time set
    [0; 1; 2].  The test [energy == self.max_energy - least_count*0.5] that is
    to recognise the last cell compares 8 with 9 and fails, because the last
    gap (3) is wider than [least_count] (2). *)
Theorem C1_event_of_max_energy_in_no_cell :
  np_max (map energy_of events_5_7_10) = Return 10 /\
  exists cells,
    _construct_energy_events 10 (argsort_energy events_5_7_10) = Return cells /\
    Dict.get cells 6 = Some [0] /\
    Dict.get cells 8 = Some [1] /\
    length cells = 2%nat /\
    In (2, 10) events_5_7_10 /\
    (forall key toa, In (key, toa) cells -> ~ In 2 toa) /\
    sorted (concat (Dict.values cells)) = [0; 1] /\
    sorted (map toa_of events_5_7_10) = [0; 1; 2].
Proof.
  split; [reflexivity|].
  eexists. split; [vm_compute; reflexivity|].
  repeat split; try reflexivity.
  - right. right. left. reflexivity.
  - intros key toa [E|[E|[]]]; inversion E; subst; intros [H|[]]; discriminate H.
Qed.

(** C2, at the input [events_5_7_10_twice] (unique energies {5, 7, 10},
    [least_count = 2]).  Two cells are produced, keyed 6 and 8.  The cell
    keyed 6 holds the events of energy 5.  The cell keyed 8 is not recognised
    as the last cell (8 is compared with 10 - 1 = 9), so it is selected with
    the half-open test [7 <= energy < 9]: it holds the events of energy 7
    only, and the two events of the maximum energy 10 (arrival times 11 and
    13) are left out. *)
Theorem C2_cell_8_excludes_max_energy :
  np_min (np_diff (np_unique (map energy_of events_5_7_10_twice))) = Return 2 /\
  np_max (map energy_of events_5_7_10_twice) = Return 10 /\
  Qeq_bool 8 (10 - 2 * (1#2)) = false /\
  cell_toa (argsort_energy events_5_7_10_twice) 10 2 8 =
    sorted (select_half_open (argsort_energy events_5_7_10_twice) 7 9) /\
  exists cells,
    _construct_energy_events 10 (argsort_energy events_5_7_10_twice) = Return cells /\
    length cells = 2%nat /\
    Dict.get cells 6 = Some [12; 15] /\
    Dict.get cells 8 = Some [10; 14] /\
    ~ In 11 [10; 14] /\ ~ In 13 [10; 14].
Proof.
  split; [reflexivity|]. split; [reflexivity|]. split; [reflexivity|].
  split; [vm_compute; reflexivity|].
  eexists. split; [vm_compute; reflexivity|].
  repeat split; try reflexivity.
  - intros [H|[H|[]]]; discriminate H.
  - intros [H|[H|[]]]; discriminate H.
Qed.

(** ** The partitioner when the last gap is the least count *)









(** ** Merging with one band that spans every energy (C9) *)

(** C9.  Let [min_energy] and [max_energy] be the smallest and the largest
    energy of an event list with at least two distinct energies.  The
    partitioner returns a cell mapping, and merging it with the single band
    [(min_energy, max_energy)] returns a mapping with exactly one entry: its
    key is the band's midpoint and its event list is the concatenation of
    the event lists of all the fine cells. *)
Theorem C9_single_spanning_band (event_list : list event)
    (min_energy max_energy : Q) :
  np_min (map energy_of event_list) = Return min_energy ->
  np_max (map energy_of event_list) = Return max_energy ->
  (exists e1 e2, In e1 event_list /\ In e2 event_list /\
                 ~ energy_of e1 == energy_of e2) ->
  exists cells,
    _construct_energy_events max_energy (argsort_energy event_list) = Return cells /\
    _update_energy_events (Some [(min_energy, max_energy)]) cells =
      Return [(mid_bin (min_energy, max_energy), concat (Dict.values cells))].
Proof.
  intros Emin Emax [e1 [e2 [I1 [I2 N]]]].
  set (T := argsort_energy event_list).
  assert (B : forall e, In e T -> min_energy <= energy_of e <= max_energy).
  { intros e Ie. apply (proj1 (argsort_energy_in event_list e)) in Ie.
    assert (In (energy_of e) (map energy_of event_list)) by (apply in_map; exact Ie).
    split; [eapply np_min_le | eapply np_max_ge]; eassumption. }
  destruct (np_min_nonempty (np_diff (np_unique (map energy_of T)))) as [lc Elc].
  { apply (np_diff_nonempty _ (energy_of e1) (energy_of e2)).
    - apply in_map. apply (proj2 (argsort_energy_in event_list e1)). exact I1.
    - apply in_map. apply (proj2 (argsort_energy_in event_list e2)). exact I2.
    - exact N. }
  eexists. split; [apply construct_energy_events_closed; exact Elc|].
  set (U := removelast (np_unique (map energy_of T))).
  set (cells := map _ U).
  assert (W : Dict.wf cells).
  { apply cells_wf. apply removelast_sorted. apply np_unique_sorted. }
  assert (A : forall kv, In kv cells -> in_band (min_energy, max_energy) (fst kv) = true).
  { intros kv Ikv. apply in_map_iff in Ikv. destruct Ikv as [u [<- Iu]].
    apply in_band_spec. simpl.
    exact (cell_key_in_range T min_energy max_energy lc u B Elc Iu). }
  rewrite update_energy_events_ok by exact W.
  simpl. unfold band_rest, band_cells.
  rewrite (filter_none (fun kv => in_band (min_energy, max_energy) (fst kv))) by exact A.
  rewrite filter_all by exact A. reflexivity.
Qed.

Lemma C9_single_spanning_band_witness :
  exists cells,
    _construct_energy_events 4 (argsort_energy events_1_2_3_4) = Return cells /\
    _update_energy_events (Some [(1, 4)]) cells =
      Return [(mid_bin (1, 4), concat (Dict.values cells))].
Proof.
  apply (C9_single_spanning_band events_1_2_3_4 1 4).
  - reflexivity.
  - reflexivity.
  - exists (0, 1), (1, 2). simpl. repeat split; auto.
    intros H. discriminate H.
Defined.

(** ** Overlapping bands (C3) and bands with one midpoint (C10) *)

Lemma merged_entry (pre post : list band) (b : band) (d : Dict.t (list Q)) :
  (forall b', In b' post -> ~ mid_bin b' == mid_bin b) ->
  Dict.get
    (Dict.update (fst (fold_left merge_band_pure (pre ++ b :: post) (d, [])))
       (snd (fold_left merge_band_pure (pre ++ b :: post) (d, []))))
    (mid_bin b) =
  Some (concat (Dict.values (band_sources pre b d))).
Proof.
  intros H.
  rewrite get_update by (apply merge_pure_wf_acc; constructor).
  rewrite merge_pure_entry by exact H. reflexivity.
Qed.

Lemma band_sources_in (earlier : list band) (b : band) (d : Dict.t (list Q))
    (kv : Q * list Q) :
  In kv (band_sources earlier b d) <->
  In kv d /\ in_band b (fst kv) = true /\ taken_by earlier (fst kv) = false.
Proof.
  unfold band_sources. rewrite filter_In, andb_true_iff, negb_true_iff. tauto.
Qed.

Lemma in_values_concat (d : Dict.t (list Q)) (key t : Q) (toa : list Q) :
  In (key, toa) d -> In t toa -> In t (concat (Dict.values d)).
Proof.
  intros I It. apply in_concat. exists toa. split; [|exact It].
  unfold Dict.values. apply (in_map snd d (key, toa)). exact I.
Qed.

Lemma taken_by_later (pre mid : list band) (b : band) (key : Q) :
  in_band b key = true -> taken_by (pre ++ b :: mid) key = true.
Proof.
  intros H. unfold taken_by. rewrite existsb_app. simpl. rewrite H.
  rewrite orb_true_r. reflexivity.
Qed.

(** C3, as the code has it.  Let the band list be
    [pre ++ b1 :: mid ++ b2 :: post], the midpoint of [b1] differ from the
    midpoints of all later bands and the midpoint of [b2] from those of the
    bands after it.  The merge returns a mapping in which the list of [b1] is
    the concatenation of the cells whose key lies in [b1] and in no band of
    [pre], and the list of [b2] is the concatenation of the cells whose key
    lies in [b2] and in none of the bands before it.  So a cell whose key lies
    in both bands is never a source of the list of [b2], and all its events
    are in the list of [b1] when no band of [pre] contains its key. *)
Theorem C3_overlap_cell_merged_once (pre mid post : list band) (b1 b2 : band)
    (cells : Dict.t (list Q)) :
  Dict.wf cells ->
  (forall b', In b' (mid ++ b2 :: post) -> ~ mid_bin b' == mid_bin b1) ->
  (forall b', In b' post -> ~ mid_bin b' == mid_bin b2) ->
  exists merged,
    _update_energy_events (Some (pre ++ b1 :: mid ++ b2 :: post)) cells =
      Return merged /\
    Dict.get merged (mid_bin b1) =
      Some (concat (Dict.values (band_sources pre b1 cells))) /\
    Dict.get merged (mid_bin b2) =
      Some (concat (Dict.values (band_sources (pre ++ b1 :: mid) b2 cells))) /\
    forall key toa,
      In (key, toa) cells -> in_band b1 key = true -> in_band b2 key = true ->
      ~ In (key, toa) (band_sources (pre ++ b1 :: mid) b2 cells) /\
      (taken_by pre key = false ->
       forall t, In t toa ->
                 In t (concat (Dict.values (band_sources pre b1 cells)))).
Proof.
  intros W H1 H2. eexists. split; [apply update_energy_events_ok; exact W|].
  split; [apply merged_entry; exact H1|].
  split.
  - replace (pre ++ b1 :: mid ++ b2 :: post) with ((pre ++ b1 :: mid) ++ b2 :: post)
      by (rewrite <- app_assoc; reflexivity).
    apply merged_entry. exact H2.
  - intros key toa I B1 B2. split.
    + intros C. apply band_sources_in in C. destruct C as [_ [_ C]]. simpl in C.
      rewrite (taken_by_later pre mid b1 key B1) in C. discriminate.
    + intros P t It. apply (in_values_concat _ key t toa); [|exact It].
      apply band_sources_in. simpl. auto.
Qed.

Lemma construct_1_2_3_4 :
  _construct_energy_events 4 (argsort_energy events_1_2_3_4) =
    Return [(3#2, [0]); (5#2, [1; 4]); (7#2, [2; 3])].
Proof. vm_compute. reflexivity. Qed.

Lemma wf_cells_1_2_3_4 : Dict.wf [(3#2, [0]); (5#2, [1; 4]); (7#2, [2; 3])].
Proof. repeat constructor. Qed.

Lemma C3_overlap_cell_merged_once_witness :
  exists merged,
    _update_energy_events (Some ([] ++ (1, 3) :: [] ++ (2, 4) :: []))
      [(3#2, [0]); (5#2, [1; 4]); (7#2, [2; 3])] = Return merged /\
    Dict.get merged (mid_bin (1, 3)) =
      Some (concat (Dict.values
                      (band_sources [] (1, 3)
                         [(3#2, [0]); (5#2, [1; 4]); (7#2, [2; 3])]))) /\
    Dict.get merged (mid_bin (2, 4)) =
      Some (concat (Dict.values
                      (band_sources ([] ++ (1, 3) :: []) (2, 4)
                         [(3#2, [0]); (5#2, [1; 4]); (7#2, [2; 3])]))) /\
    forall key toa,
      In (key, toa) [(3#2, [0]); (5#2, [1; 4]); (7#2, [2; 3])] ->
      in_band (1, 3) key = true -> in_band (2, 4) key = true ->
      ~ In (key, toa)
          (band_sources ([] ++ (1, 3) :: []) (2, 4)
             [(3#2, [0]); (5#2, [1; 4]); (7#2, [2; 3])]) /\
      (taken_by [] key = false ->
       forall t, In t toa ->
                 In t (concat (Dict.values
                                 (band_sources [] (1, 3)
                                    [(3#2, [0]); (5#2, [1; 4]); (7#2, [2; 3])])))).
Proof.
  apply (C3_overlap_cell_merged_once [] [] [] (1, 3) (2, 4)).
  - repeat constructor.
  - intros b' [<-|[]]. intros H. discriminate H.
  - intros b' [].
Defined.

(** C3 as stated fails on [events_1_2_3_4] with the overlapping bands (1, 3)
    and (2, 4): the cell keyed 5/2 lies in both, its events (arrival times 1
    and 4) are merged into the band (1, 3), the cell is deleted, and the band
    (2, 4) receives the cell keyed 7/2 only. *)
Lemma C3_counterexample :
  exists cells merged,
    _construct_energy_events 4 (argsort_energy events_1_2_3_4) = Return cells /\
    _update_energy_events (Some [(1, 3); (2, 4)]) cells = Return merged /\
    Dict.get merged (mid_bin (1, 3)) = Some [0; 1; 4] /\
    Dict.get merged (mid_bin (2, 4)) = Some [2; 3] /\
    ~ overlap_double_counted cells merged (1, 3) (2, 4).
Proof.
  eexists. eexists. split; [exact construct_1_2_3_4|].
  split; [vm_compute; reflexivity|].
  split; [reflexivity|]. split; [reflexivity|].
  intros C.
  destruct (C (5#2) [1; 4] 1) as [L1 [L2 [_ [G2 [_ I2]]]]].
  - right. left. reflexivity.
  - reflexivity.
  - reflexivity.
  - left. reflexivity.
  - vm_compute in G2. injection G2 as <-.
    destruct I2 as [H|[H|[]]]; discriminate H.
Qed.

Lemma entries_under_absent {V : Type} (d : Dict.t V) (k : Q) :
  Dict.get d k = None -> entries_under d k = 0%nat.
Proof.
  unfold entries_under. induction d as [|[k0 v0] d IH]; simpl; [reflexivity|].
  destruct (Qeq_bool k0 k); [discriminate | exact IH].
Qed.

Lemma entries_under_present {V : Type} (d : Dict.t V) (k : Q) (v : V) :
  Dict.wf d -> Dict.get d k = Some v -> entries_under d k = 1%nat.
Proof.
  unfold entries_under. induction 1 as [|k0 v0 d H W IH]; simpl; [discriminate|].
  destruct (Qeq_bool k0 k) eqn:E.
  - intros _. simpl. f_equal.
    apply (entries_under_absent d k). exact (get_none_sym d k0 v0 k H E).
  - exact IH.
Qed.

Lemma init_covar_bands_wf (bands : list band) (d0 : Dict.t (option pyfloat)) :
  Dict.wf d0 ->
  Dict.wf (fold_left (fun d b => Dict.set d (mid_bin b) None) bands d0).
Proof.
  revert d0. induction bands as [|b bands IH]; intros d0 W; simpl; [exact W|].
  apply IH. apply wf_set. exact W.
Qed.

Lemma init_covar_bands_get (bands : list band) (d0 : Dict.t (option pyfloat)) (k : Q) :
  Dict.get d0 k = Some None \/ (exists b, In b bands /\ mid_bin b == k) ->
  Dict.get (fold_left (fun d b => Dict.set d (mid_bin b) None) bands d0) k = Some None.
Proof.
  revert d0. induction bands as [|b bands IH]; intros d0 H; simpl.
  - destruct H as [H|[b [[] _]]]. exact H.
  - apply IH. destruct (Qeq_bool (mid_bin b) k) eqn:E.
    + left. apply Qeq_bool_true in E.
      rewrite <- (get_proper _ _ _ E). apply get_set_same.
    + apply Qeq_bool_false in E. destruct H as [H|[b' [[<-|I] Eb]]].
      * left. rewrite get_set_other by exact E. exact H.
      * contradiction.
      * right. exists b'. split; assumption.
Qed.

(** The loop of [_construct_energy_covar] assigns to keys that are already
    present, so it leaves the keys of [self.energy_covar] as
    [_init_energy_covar] made them. *)
Lemma covar_loop_keys (make_lightcurve : list Q -> Q -> Q -> Q -> Lightcurve)
    (events : Dict.t (list Q)) (dt min_time max_time : Q) (ref : band)
    (ks : list Q) (d0 d : Dict.t (option pyfloat)) :
  (forall k, In k ks -> Dict.get d0 k <> None) ->
  foldM (covar_step make_lightcurve events dt min_time max_time ref) ks d0 = Return d ->
  Dict.keys d = Dict.keys d0.
Proof.
  revert d0. induction ks as [|k ks IH]; intros d0 P; simpl.
  - intros E. injection E as <-. reflexivity.
  - unfold covar_step at 1.
    destruct (Dict.getitem events k); simpl; [|discriminate].
    destruct (py_assert _); simpl; [|discriminate].
    destruct (_compute_covariance _ _) as [a1|]; simpl; [|discriminate].
    intros E. destruct (Dict.get d0 k) as [w|] eqn:G.
    + rewrite (IH (Dict.set d0 k (Some a1))); [| |exact E].
      * exact (keys_set_present d0 k _ w G).
      * intros k' I'. destruct (Qeq_bool k k') eqn:Ek.
        -- apply Qeq_bool_true in Ek. rewrite <- (get_proper _ _ _ Ek).
           rewrite get_set_same. discriminate.
        -- apply Qeq_bool_false in Ek. rewrite get_set_other by exact Ek.
           apply P. right. exact I'.
    + exfalso. apply (P k); [left; reflexivity | exact G].
Qed.

Lemma wf_get_key {V : Type} (d : Dict.t V) (k : Q) :
  In k (Dict.keys d) -> Dict.get d k <> None.
Proof.
  induction d as [|[k0 v0] d IH]; simpl; [tauto|].
  intros [<-|I].
  - rewrite (proj2 (Qeq_bool_true k0 k0)) by reflexivity. discriminate.
  - destruct (Qeq_bool k0 k); [discriminate | apply IH; exact I].
Qed.

Lemma construct_energy_covar_keys
    (make_lightcurve : list Q -> Q -> Q -> Q -> Lightcurve)
    (band_interest : option (list band)) (events : Dict.t (list Q))
    (dt min_time max_time : Q) (ref : band) (obj : Covariancespectrum_obj) :
  _construct_energy_covar make_lightcurve band_interest events dt min_time max_time ref
    = Return obj ->
  map fst (covar obj) = Dict.keys (_init_energy_covar band_interest events) /\
  energy_events obj = events.
Proof.
  unfold _construct_energy_covar.
  destruct (foldM _ _ _) as [d|e] eqn:F; simpl; [|discriminate].
  intros E. injection E as <-. simpl. split; [|reflexivity].
  apply (covar_loop_keys _ _ _ _ _ _ _ _ _ (wf_get_key _) F).
Qed.

(** C10.  Let the band list be [pre ++ b1 :: mid ++ b2 :: post] where [b1]
    and [b2] have the same midpoint and no band of [post] has it.  The merge
    returns a mapping whose entry under that midpoint is the concatenation of
    the cells that were still live when [b2] was processed and whose key lies
    in [b2]; no cell with a key in [b1] is among them, so nothing that [b1]
    had merged survives.  The spectrum has exactly one entry under the
    midpoint: [_init_energy_covar] makes one, and every object that
    [_construct_energy_covar] returns has one row for it and reads its events
    from the merged entry. *)
Theorem C10_same_midpoint_later_band_wins (pre mid post : list band)
    (b1 b2 : band) (cells : Dict.t (list Q)) :
  Dict.wf cells ->
  mid_bin b1 == mid_bin b2 ->
  (forall b', In b' post -> ~ mid_bin b' == mid_bin b2) ->
  exists merged,
    _update_energy_events (Some (pre ++ b1 :: mid ++ b2 :: post)) cells =
      Return merged /\
    Dict.get merged (mid_bin b1) =
      Some (concat (Dict.values (band_sources (pre ++ b1 :: mid) b2 cells))) /\
    (forall key toa,
        In (key, toa) cells -> in_band b1 key = true ->
        ~ In (key, toa) (band_sources (pre ++ b1 :: mid) b2 cells)) /\
    entries_under
      (_init_energy_covar (Some (pre ++ b1 :: mid ++ b2 :: post)) merged)
      (mid_bin b1) = 1%nat /\
    forall make_lightcurve dt min_time max_time ref obj,
      _construct_energy_covar make_lightcurve
        (Some (pre ++ b1 :: mid ++ b2 :: post)) merged dt min_time max_time ref
        = Return obj ->
      length (filter (fun k => Qeq_bool k (mid_bin b1)) (map fst (covar obj))) = 1%nat /\
      Dict.get (energy_events obj) (mid_bin b1) =
        Some (concat (Dict.values (band_sources (pre ++ b1 :: mid) b2 cells))).
Proof.
  intros W M H. eexists. split; [apply update_energy_events_ok; exact W|].
  set (merged := Dict.update _ _).
  assert (G : Dict.get merged (mid_bin b1) =
              Some (concat (Dict.values (band_sources (pre ++ b1 :: mid) b2 cells)))).
  { rewrite (get_proper _ _ _ M). subst merged.
    replace (pre ++ b1 :: mid ++ b2 :: post) with ((pre ++ b1 :: mid) ++ b2 :: post)
      by (rewrite <- app_assoc; reflexivity).
    apply merged_entry. exact H. }
  assert (N : entries_under
                (_init_energy_covar (Some (pre ++ b1 :: mid ++ b2 :: post)) merged)
                (mid_bin b1) = 1%nat).
  { apply (entries_under_present _ _ None).
    - apply init_covar_bands_wf. constructor.
    - apply init_covar_bands_get. right. exists b1.
      split; [apply in_or_app; right; left; reflexivity | reflexivity]. }
  split; [exact G|]. split; [|split; [exact N|]].
  - intros key toa I B1 C. apply band_sources_in in C. destruct C as [_ [_ C]].
    simpl in C. rewrite (taken_by_later pre mid b1 key B1) in C. discriminate.
  - intros mk dt min_time max_time ref obj E.
    apply construct_energy_covar_keys in E. destruct E as [K Ev].
    rewrite K, Ev. split; [exact N | exact G].
Qed.

Lemma C10_same_midpoint_later_band_wins_witness :
  Dict.wf [(3#2, [0]); (5#2, [1; 4]); (7#2, [2; 3])] /\
  mid_bin (1, 3) == mid_bin (0, 4) /\
  exists merged,
    _update_energy_events (Some [(1, 3); (0, 4)])
      [(3#2, [0]); (5#2, [1; 4]); (7#2, [2; 3])] = Return merged /\
    Dict.get merged (mid_bin (1, 3)) = Some [2; 3] /\
    entries_under (_init_energy_covar (Some [(1, 3); (0, 4)]) merged) (mid_bin (1, 3))
      = 1%nat.
Proof.
  split; [repeat constructor|]. split; [reflexivity|].
  destruct (C10_same_midpoint_later_band_wins [] [] [] (1, 3) (0, 4)
              [(3#2, [0]); (5#2, [1; 4]); (7#2, [2; 3])])
    as [merged [E [G [_ [N _]]]]].
  - repeat constructor.
  - reflexivity.
  - intros b' [].
  - exists merged. split; [exact E|]. split; [exact G | exact N].
Defined.

(** ** [sorted] *)

Lemma insert_sorted_perm (x : Q) (l : list Q) :
  Permutation (insert_sorted x l) (x :: l).
Proof.
  induction l as [|y l IH]; simpl; [apply Permutation_refl|].
  destruct (Qle_bool y x); [|apply Permutation_refl].
  apply perm_trans with (y :: x :: l); [apply perm_skip; exact IH | apply perm_swap].
Qed.

Lemma sorted_perm (l : list Q) : Permutation (sorted l) l.
Proof.
  unfold sorted.
  assert (G : forall acc,
             Permutation (fold_left (fun acc x => insert_sorted x acc) l acc) (acc ++ l)).
  { induction l as [|x l IH]; intros acc; simpl.
    - rewrite app_nil_r. apply Permutation_refl.
    - eapply perm_trans; [apply IH|].
      eapply perm_trans;
        [apply Permutation_app_tail; apply insert_sorted_perm|].
      simpl. apply Permutation_middle. }
  exact (G []).
Qed.

Lemma insert_sorted_sorted (x : Q) (l : list Q) :
  StronglySorted Qle l -> StronglySorted Qle (insert_sorted x l).
Proof.
  induction 1 as [|y l S IH F]; simpl.
  - constructor; constructor.
  - destruct (Qle_bool y x) eqn:E.
    + apply Qle_bool_true in E. constructor; [exact IH|].
      apply Forall_forall. intros z Iz.
      apply (Permutation_in _ (insert_sorted_perm x l)) in Iz.
      destruct Iz as [<-|Iz]; [exact E | exact (proj1 (Forall_forall _ _) F z Iz)].
    + apply Qle_bool_false in E. constructor; [constructor; assumption|].
      constructor; [lra|].
      eapply Forall_impl; [|exact F]. intros z Hz. simpl in Hz. lra.
Qed.

Lemma sorted_sorted (l : list Q) : StronglySorted Qle (sorted l).
Proof.
  unfold sorted.
  assert (G : forall acc, StronglySorted Qle acc ->
             StronglySorted Qle (fold_left (fun acc x => insert_sorted x acc) l acc)).
  { induction l as [|x l IH]; intros acc S; simpl; [exact S|].
    apply IH. apply insert_sorted_sorted. exact S. }
  apply G. constructor.
Qed.

(** ** The reference stream (C4) *)

Lemma toa_ref_loop (ref : band) (energy : Q) (l : Dict.t (list Q)) (acc : list Q) :
  fold_left
    (fun acc kv =>
       if in_band ref (fst kv) then
         if negb (Qeq_bool (fst kv) energy) then acc ++ snd kv else acc
       else acc) l acc =
  acc ++ concat (Dict.values
                   (filter (fun kv => in_reference ref energy (fst kv)) l)).
Proof.
  revert acc. induction l as [|[k v] l IH]; intros acc; simpl.
  - rewrite app_nil_r. reflexivity.
  - rewrite IH. unfold in_reference at 2. simpl.
    destruct (in_band ref k); simpl; [|reflexivity].
    destruct (Qeq_bool k energy); simpl; [reflexivity|].
    rewrite app_assoc. reflexivity.
Qed.

(** C4.  For every live mapping [energy_events], reference range [ref] and
    evaluated key [energy], the reference stream [toa_ref] is the sorted
    concatenation of the event lists of the entries whose key lies in
    [[ref[0], ref[1]]] (both ends included) and is not the evaluated key: it
    is in ascending order and a permutation of that concatenation.  An entry
    is a source exactly when it is in the mapping, its key is in the range and
    differs from [energy]; an entry under the evaluated key is never one,
    whether or not the key lies in the range. *)
Theorem C4_reference_stream (energy_events : Dict.t (list Q)) (ref : band)
    (energy : Q) :
  let sources :=
    filter (fun kv => in_reference ref energy (fst kv)) energy_events in
  toa_ref energy_events ref energy = sorted (concat (Dict.values sources)) /\
  StronglySorted Qle (toa_ref energy_events ref energy) /\
  Permutation (toa_ref energy_events ref energy) (concat (Dict.values sources)) /\
  (forall kv, In kv sources <->
              In kv energy_events /\
              (fst ref <= fst kv /\ fst kv <= snd ref) /\ ~ fst kv == energy) /\
  (forall kv, fst kv == energy -> ~ In kv sources).
Proof.
  intros sources.
  assert (E : toa_ref energy_events ref energy = sorted (concat (Dict.values sources))).
  { unfold toa_ref, Dict.items. rewrite toa_ref_loop. reflexivity. }
  assert (M : forall kv, In kv sources <->
                In kv energy_events /\
                (fst ref <= fst kv /\ fst kv <= snd ref) /\ ~ fst kv == energy).
  { intros kv. unfold sources. rewrite filter_In. unfold in_reference.
    rewrite andb_true_iff, negb_true_iff, in_band_spec, Qeq_bool_false. tauto. }
  split; [exact E|]. rewrite E.
  split; [apply sorted_sorted|]. split; [apply sorted_perm|].
  split; [exact M|].
  intros kv Ek I. apply M in I. tauto.
Qed.

(** ** The covariance engine (C6) *)

Lemma combine_map_map {A B C D : Type} (f : A -> C) (g : B -> D)
    (x : list A) (y : list B) :
  combine (map f x) (map g y) = map (fun p => (f (fst p), g (snd p))) (combine x y).
Proof.
  revert y. induction x as [|a x IH]; intros [|b y]; simpl; try reflexivity.
  rewrite IH. reflexivity.
Qed.

Lemma dot_center (x y : list Q) :
  dot (center x) (center y) =
    Qsum (map (fun p => (fst p - mean x) * (snd p - mean y)) (combine x y)).
Proof.
  unfold dot, center. rewrite combine_map_map, map_map. reflexivity.
Qed.

Lemma dot_comm (x y : list Q) : dot x y == dot y x.
Proof.
  unfold dot. revert y. induction x as [|a x IH]; intros [|b y]; simpl; try reflexivity.
  rewrite IH. ring.
Qed.

Lemma scale_by_fact (s : Q) (n : nat) :
  s * (1 / inject_Z (Z.of_nat n - 1)) == s / (inject_Z (Z.of_nat n) - 1).
Proof.
  assert (E : inject_Z (Z.of_nat n - 1) == inject_Z (Z.of_nat n) - 1).
  { unfold Z.sub, Qminus. rewrite inject_Z_plus, inject_Z_opp. reflexivity. }
  rewrite E. unfold Qdiv. ring.
Qed.

(** C6.  For two count series of one length [N >= 2], [np.cov] returns a
    2 x 2 matrix whose diagonal entries are the sample variances of the two
    series and whose two off-diagonal entries are equal, and
    [_compute_covariance] returns the off-diagonal entry [[0][1]]: the sum of
    the products of the deviations from the means, divided by [N - 1]. *)
Theorem C6_sample_covariance (lc1 lc2 : Lightcurve) :
  length (lc_counts lc1) = length (lc_counts lc2) ->
  (2 <= length (lc_counts lc1))%nat ->
  exists c00 c01 c10 c11,
    np_cov (lc_counts lc1) (lc_counts lc2) =
      Return [[Num c00; Num c01]; [Num c10; Num c11]] /\
    _compute_covariance lc1 lc2 = Return (Num c01) /\
    c01 == sample_covariance (lc_counts lc1) (lc_counts lc2) /\
    c10 == c01 /\
    c00 == sample_covariance (lc_counts lc1) (lc_counts lc1) /\
    c11 == sample_covariance (lc_counts lc2) (lc_counts lc2).
Proof.
  intros L N. destruct lc1 as [t1 x], lc2 as [t2 y]. simpl in *.
  assert (F : ((Z.of_nat (length x) - 1 <=? 0)%Z = false)) by (apply Z.leb_gt; lia).
  assert (C : np_cov x y =
              Return (map (fun r => map (fun r' =>
                        Num (dot r r' * (1 / inject_Z (Z.of_nat (length x) - 1))))
                        [center x; center y]) [center x; center y])).
  { unfold np_cov. rewrite L, Nat.eqb_refl. simpl negb. cbv iota.
    rewrite <- L, F. reflexivity. }
  do 4 eexists. split; [exact C|].
  split; [unfold _compute_covariance; simpl lc_counts; rewrite C; reflexivity|].
  unfold sample_covariance.
  split; [rewrite dot_center; apply scale_by_fact|].
  split; [rewrite (dot_comm (center y) (center x)); reflexivity|].
  split; [rewrite dot_center; apply scale_by_fact|].
  rewrite dot_center, L. rewrite <- L at 1. rewrite L. apply scale_by_fact.
Qed.

Lemma C6_sample_covariance_witness :
  exists c00 c01 c10 c11,
    np_cov [1; 2; 4] [2; 1; 6] = Return [[Num c00; Num c01]; [Num c10; Num c11]] /\
    _compute_covariance {| lc_time := [0; 1; 2]; lc_counts := [1; 2; 4] |}
                        {| lc_time := [0; 1; 2]; lc_counts := [2; 1; 6] |}
      = Return (Num c01) /\
    c01 == sample_covariance [1; 2; 4] [2; 1; 6] /\
    c10 == c01 /\
    c00 == sample_covariance [1; 2; 4] [1; 2; 4] /\
    c11 == sample_covariance [2; 1; 6] [2; 1; 6].
Proof.
  apply (C6_sample_covariance {| lc_time := [0; 1; 2]; lc_counts := [1; 2; 4] |}
                              {| lc_time := [0; 1; 2]; lc_counts := [2; 1; 6] |}).
  - reflexivity.
  - simpl. lia.
Defined.


Example sample_covariance_1_2_4 : sample_covariance [1; 2; 4] [2; 1; 6] == 7 # 2.
Proof. vm_compute. reflexivity. Qed.

(** ** The assertions of the constructor (C8) *)

Lemma check_band_valid (o : pyobj) :
  valid_shape o = true -> check_band o = Return (as_band o).
Proof.
  unfold valid_shape, check_band. intros H. apply andb_true_iff in H.
  destruct H as [H1 H2]. rewrite H1, H2. reflexivity.
Qed.

Lemma check_band_invalid (o : pyobj) :
  valid_shape o = false -> check_band o = Raise AssertionError.
Proof.
  unfold valid_shape, check_band. intros H.
  destruct (is_list_or_tuple o); simpl in *; [rewrite H|]; reflexivity.
Qed.

Lemma check_bands_valid (os : list pyobj) :
  forallb valid_shape os = true -> check_bands os = Return (map as_band os).
Proof.
  induction os as [|o os IH]; simpl; [reflexivity|].
  intros H. apply andb_true_iff in H. destruct H as [H1 H2].
  rewrite (check_band_valid o H1), (IH H2). reflexivity.
Qed.

Lemma check_bands_invalid (os : list pyobj) :
  forallb valid_shape os = false -> check_bands os = Raise AssertionError.
Proof.
  induction os as [|o os IH]; simpl; [discriminate|].
  destruct (valid_shape o) eqn:V; simpl.
  - intros H. rewrite (check_band_valid o V), (IH H). reflexivity.
  - intros _. rewrite (check_band_invalid o V). reflexivity.
Qed.

(** On a non-empty event list the four reductions of the constructor return,
    and what is left are the assertions followed by the pipeline. *)
Lemma constructor_unfold (make_lightcurve : list Q -> Q -> Q -> Q -> Lightcurve)
    (event_list : list event) (dt : Q) (band_interest : option (list pyobj))
    (ref_band_interest : option pyobj) :
  event_list <> [] ->
  exists min_energy max_energy min_time max_time,
    np_min (map energy_of event_list) = Return min_energy /\
    np_max (map energy_of event_list) = Return max_energy /\
    np_min (map toa_of event_list) = Return min_time /\
    np_max (map toa_of event_list) = Return max_time /\
    Covariancespectrum make_lightcurve event_list dt band_interest ref_band_interest =
      (ref <- check_band
                (match ref_band_interest with
                 | None => PyTuple [min_energy; max_energy]
                 | Some r => r
                 end) ;;
       bands <-
         match band_interest with
         | Some os => bs <- check_bands os ;; Return (Some bs)
         | None => Return None
         end ;;
       run_pipeline make_lightcurve event_list dt bands ref
         max_energy min_time max_time).
Proof.
  destruct event_list as [|e0 rest]; [congruence|]. intros _.
  do 4 eexists. repeat split; reflexivity.
Qed.

Lemma constructor_checks_fail
    (make_lightcurve : list Q -> Q -> Q -> Q -> Lightcurve)
    (event_list : list event) (dt : Q) (band_interest : option (list pyobj))
    (ref_band_interest : option pyobj) :
  event_list <> [] ->
  ref_ok ref_band_interest && bands_ok band_interest = false ->
  Covariancespectrum make_lightcurve event_list dt band_interest ref_band_interest
    = Raise AssertionError.
Proof.
  intros NE H.
  destruct (constructor_unfold make_lightcurve event_list dt band_interest
              ref_band_interest NE)
    as [min_energy [max_energy [min_time [max_time [E1 [E2 [E3 [E4 E]]]]]]]].
  rewrite E. apply andb_false_iff in H.
  destruct ref_band_interest as [r|]; simpl in H.
  - destruct (valid_shape r) eqn:V.
    + rewrite (check_band_valid r V). simpl.
      destruct H as [H|H]; [discriminate|].
      destruct band_interest as [os|]; simpl in H; [|discriminate].
      rewrite (check_bands_invalid os H). reflexivity.
    + rewrite (check_band_invalid r V). reflexivity.
  - simpl. destruct H as [H|H]; [discriminate|].
    destruct band_interest as [os|]; simpl in H; [|discriminate].
    rewrite (check_bands_invalid os H). reflexivity.
Qed.

Lemma constructor_checks_pass
    (make_lightcurve : list Q -> Q -> Q -> Q -> Lightcurve)
    (event_list : list event) (dt : Q) (band_interest : option (list pyobj))
    (ref_band_interest : option pyobj) :
  event_list <> [] ->
  ref_ok ref_band_interest && bands_ok band_interest = true ->
  exists min_energy max_energy min_time max_time,
    np_min (map energy_of event_list) = Return min_energy /\
    np_max (map energy_of event_list) = Return max_energy /\
    np_min (map toa_of event_list) = Return min_time /\
    np_max (map toa_of event_list) = Return max_time /\
    Covariancespectrum make_lightcurve event_list dt band_interest ref_band_interest =
      run_pipeline make_lightcurve event_list dt
        (option_map (map as_band) band_interest)
        (match ref_band_interest with
         | None => (min_energy, max_energy)
         | Some r => as_band r
         end)
        max_energy min_time max_time.
Proof.
  intros NE H.
  destruct (constructor_unfold make_lightcurve event_list dt band_interest
              ref_band_interest NE)
    as [min_energy [max_energy [min_time [max_time [E1 [E2 [E3 [E4 E]]]]]]]].
  apply andb_true_iff in H. destruct H as [H1 H2].
  exists min_energy, max_energy, min_time, max_time.
  repeat (split; [assumption|]). rewrite E.
  assert (C : check_band
                (match ref_band_interest with
                 | None => PyTuple [min_energy; max_energy]
                 | Some r => r
                 end) =
              Return (match ref_band_interest with
                      | None => (min_energy, max_energy)
                      | Some r => as_band r
                      end)).
  { destruct ref_band_interest as [r|]; simpl in H1.
    - apply check_band_valid. exact H1.
    - reflexivity. }
  rewrite C. simpl.
  destruct band_interest as [os|]; simpl in H2 |- *.
  - rewrite (check_bands_valid os H2). reflexivity.
  - reflexivity.
Qed.

(** C8, as the code has it.  On a non-empty event list: when
    [ref_band_interest] is supplied and is not a list or tuple of length 2, or
    some element of [band_interest] is not, the constructor raises
    [AssertionError], whatever the events are (also those on which the
    partitioner would itself fail); otherwise the assertions pass and the
    constructor is the pipeline run on the bands read as pairs. *)
Theorem C8_shape_assertions (make_lightcurve : list Q -> Q -> Q -> Q -> Lightcurve)
    (event_list : list event) (dt : Q) (band_interest : option (list pyobj))
    (ref_band_interest : option pyobj) :
  event_list <> [] ->
  (ref_ok ref_band_interest && bands_ok band_interest = false ->
   Covariancespectrum make_lightcurve event_list dt band_interest ref_band_interest
     = Raise AssertionError) /\
  (ref_ok ref_band_interest && bands_ok band_interest = true ->
   exists min_energy max_energy min_time max_time,
     np_min (map energy_of event_list) = Return min_energy /\
     np_max (map energy_of event_list) = Return max_energy /\
     np_min (map toa_of event_list) = Return min_time /\
     np_max (map toa_of event_list) = Return max_time /\
     Covariancespectrum make_lightcurve event_list dt band_interest ref_band_interest =
       run_pipeline make_lightcurve event_list dt
         (option_map (map as_band) band_interest)
         (match ref_band_interest with
          | None => (min_energy, max_energy)
          | Some r => as_band r
          end)
         max_energy min_time max_time).
Proof.
  intros NE. split.
  - apply constructor_checks_fail. exact NE.
  - apply constructor_checks_pass. exact NE.
Qed.

Lemma C8_shape_assertions_witness :
  events_1_2_3_4 <> [] /\
  ref_ok None && bands_ok (Some [PyTuple [1; 3]; PyList [2; 4]]) = true /\
  exists min_energy max_energy min_time max_time,
    np_min (map energy_of events_1_2_3_4) = Return min_energy /\
    np_max (map energy_of events_1_2_3_4) = Return max_energy /\
    np_min (map toa_of events_1_2_3_4) = Return min_time /\
    np_max (map toa_of events_1_2_3_4) = Return max_time /\
    Covariancespectrum make_lightcurve_model events_1_2_3_4 1
      (Some [PyTuple [1; 3]; PyList [2; 4]]) None =
      run_pipeline make_lightcurve_model events_1_2_3_4 1
        (Some [(1, 3); (2, 4)]) (min_energy, max_energy)
        max_energy min_time max_time.
Proof.
  split; [discriminate|]. split; [reflexivity|].
  apply (proj2 (C8_shape_assertions make_lightcurve_model events_1_2_3_4 1
                  (Some [PyTuple [1; 3]; PyList [2; 4]]) None
                  ltac:(discriminate))).
  reflexivity.
Defined.

(** C8 as stated fails on [events_1_2_3_4] with a band of three elements: the
    constructor raises [AssertionError], not [InvalidInputError]. *)
Lemma C8_counterexample :
  valid_shape (PyTuple [1; 2; 3]) = false /\
  Covariancespectrum make_lightcurve_model events_1_2_3_4 1
    (Some [PyTuple [1; 2; 3]]) None = Raise AssertionError /\
  Covariancespectrum make_lightcurve_model events_1_2_3_4 1
    (Some [PyTuple [1; 2; 3]]) None <> Raise InvalidInputError.
Proof.
  split; [reflexivity|].
  assert (E : Covariancespectrum make_lightcurve_model events_1_2_3_4 1
                (Some [PyTuple [1; 2; 3]]) None = Raise AssertionError)
    by reflexivity.
  split; [exact E|]. rewrite E. discriminate.
Qed.

(** ** Fewer than two distinct energies (C7) *)

Lemma np_diff_unique_of_equal (a : list Q) :
  (forall x y, In x a -> In y a -> x == y) -> np_diff (np_unique a) = [].
Proof.
  intros H.
  pose proof (np_unique_sorted a) as S.
  pose proof (np_unique_in a) as I.
  destruct (np_unique a) as [|p [|q l]]; try reflexivity.
  exfalso. inversion S as [|? ? _ F]; subst. inversion F as [|? ? L _]; subst.
  assert (p == q) by (apply H; apply I; simpl; auto).
  lra.
Qed.

Lemma construct_energy_events_one_energy (max_energy : Q) (event_list_T : list event) :
  (forall e1 e2, In e1 event_list_T -> In e2 event_list_T ->
                 energy_of e1 == energy_of e2) ->
  _construct_energy_events max_energy event_list_T = Raise ValueError.
Proof.
  intros H. unfold _construct_energy_events.
  rewrite np_diff_unique_of_equal; [reflexivity|].
  intros x y Ix Iy. apply in_map_iff in Ix, Iy.
  destruct Ix as [e1 [<- I1]]. destruct Iy as [e2 [<- I2]]. apply H; assumption.
Qed.

(** C7, as the code has it.  When all events share one energy value (or there
    is no event) and the band arguments are well shaped, the constructor
    raises [ValueError]: [np.diff] of the single unique energy is empty and
    [.min()] of an empty array raises (for an empty event list, [np.min] of
    the empty energy column does).  The error is never
    [InsufficientDataError]. *)
Theorem C7_one_energy_raises_ValueError
    (make_lightcurve : list Q -> Q -> Q -> Q -> Lightcurve)
    (event_list : list event) (dt : Q) (band_interest : option (list pyobj))
    (ref_band_interest : option pyobj) :
  (forall e1 e2, In e1 event_list -> In e2 event_list ->
                 energy_of e1 == energy_of e2) ->
  ref_ok ref_band_interest && bands_ok band_interest = true ->
  Covariancespectrum make_lightcurve event_list dt band_interest ref_band_interest
    = Raise ValueError.
Proof.
  intros H V. destruct event_list as [|e0 rest] eqn:EL; [reflexivity|].
  rewrite <- EL in *.
  assert (NE : event_list <> []) by (rewrite EL; discriminate).
  destruct (constructor_checks_pass make_lightcurve event_list dt band_interest
              ref_band_interest NE V)
    as [min_energy [max_energy [min_time [max_time [_ [_ [_ [_ E]]]]]]]].
  rewrite E. unfold run_pipeline.
  rewrite construct_energy_events_one_energy; [reflexivity|].
  intros e1 e2 I1 I2.
  apply (proj1 (argsort_energy_in event_list e1)) in I1.
  apply (proj1 (argsort_energy_in event_list e2)) in I2.
  apply H; assumption.
Qed.

Lemma C7_one_energy_raises_ValueError_witness :
  Covariancespectrum make_lightcurve_model events_one_energy 1 None None
    = Raise ValueError.
Proof.
  apply (C7_one_energy_raises_ValueError make_lightcurve_model events_one_energy
           1 None None).
  - intros e1 e2 I1 I2. simpl in I1, I2.
    destruct I1 as [<-|[<-|[<-|[]]]]; destruct I2 as [<-|[<-|[<-|[]]]];
      reflexivity.
  - reflexivity.
Defined.

(** C7 as stated fails on [events_one_energy], whose three events share the
    energy 3: the constructor raises [ValueError], not
    [InsufficientDataError]. *)
Lemma C7_counterexample :
  np_unique (map energy_of events_one_energy) = [3] /\
  Covariancespectrum make_lightcurve_model events_one_energy 1 None None
    = Raise ValueError /\
  Covariancespectrum make_lightcurve_model events_one_energy 1 None None
    <> Raise InsufficientDataError.
Proof.
  split; [reflexivity|].
  assert (E : Covariancespectrum make_lightcurve_model events_one_energy 1 None None
              = Raise ValueError) by reflexivity.
  split; [exact E|]. rewrite E. discriminate.
Qed.

(** ** The length assertion (C5) *)

Lemma foldM_raises {A S : Type} (P : exception -> Prop) (f : S -> A -> result S)
    (l : list A) (s : S) (e : exception) :
  (forall s a e, f s a = Raise e -> P e) -> foldM f l s = Raise e -> P e.
Proof.
  intros H. revert s. induction l as [|a l IH]; intros s; simpl; [discriminate|].
  destruct (f s a) as [s'|e'] eqn:E; simpl.
  - apply IH.
  - intros R. injection R as <-. exact (H s a e' E).
Qed.

Lemma construct_energy_events_raises (max_energy : Q) (event_list_T : list event)
    (e : exception) :
  _construct_energy_events max_energy event_list_T = Raise e -> e = ValueError.
Proof.
  unfold _construct_energy_events.
  destruct (np_diff (np_unique (map energy_of event_list_T))); simpl.
  - intros R. injection R as <-. reflexivity.
  - discriminate.
Qed.

Lemma getitem_raises {V : Type} (d : Dict.t V) (k : Q) (e : exception) :
  Dict.getitem d k = Raise e -> e = KeyError.
Proof.
  unfold Dict.getitem. destruct (Dict.get d k); [discriminate|].
  intros R. injection R as <-. reflexivity.
Qed.

Lemma del_raises {V : Type} (d : Dict.t V) (k : Q) (e : exception) :
  Dict.del d k = Raise e -> e = KeyError.
Proof.
  induction d as [|[k0 v0] d IH]; simpl.
  - intros R. injection R as <-. reflexivity.
  - destruct (Qeq_bool k0 k); [discriminate|].
    destruct (Dict.del d k); simpl; [discriminate | exact IH].
Qed.

Lemma merge_key_raises (b : band) (st : merge_state) (key : Q) (e : exception) :
  merge_key b st key = Raise e -> e = KeyError.
Proof.
  destruct st as [d acc]. unfold merge_key.
  destruct (in_band b key); [|discriminate].
  destruct (Dict.getitem acc (mid_bin b)) eqn:G1; simpl;
    [|intros R; injection R as <-; exact (getitem_raises _ _ _ G1)].
  destruct (Dict.getitem d key) eqn:G2; simpl;
    [|intros R; injection R as <-; exact (getitem_raises _ _ _ G2)].
  destruct (Dict.del d key) eqn:G3; simpl;
    [discriminate | intros R; injection R as <-; exact (del_raises _ _ _ G3)].
Qed.

Lemma merge_band_raises (st : merge_state) (b : band) (e : exception) :
  merge_band st b = Raise e -> e = KeyError.
Proof.
  destruct st as [d acc]. unfold merge_band.
  apply (foldM_raises (fun e => e = KeyError)). apply merge_key_raises.
Qed.

Lemma update_energy_events_raises (band_interest : option (list band))
    (d : Dict.t (list Q)) (e : exception) :
  _update_energy_events band_interest d = Raise e -> e = KeyError.
Proof.
  destruct band_interest as [bands|]; simpl; [|discriminate].
  destruct (foldM merge_band bands (d, [])) eqn:F; simpl; [discriminate|].
  intros R. injection R as <-.
  exact (foldM_raises (fun e => e = KeyError) _ _ _ _ merge_band_raises F).
Qed.

Lemma compute_covariance_raises (lc1 lc2 : Lightcurve) (e : exception) :
  _compute_covariance lc1 lc2 = Raise e -> e = ValueError.
Proof.
  unfold _compute_covariance, np_cov.
  destruct (negb _); simpl.
  - intros R. injection R as <-. reflexivity.
  - destruct (_ <=? _)%Z; discriminate.
Qed.

Section SeriesBuilder.

Variable make_lightcurve : list Q -> Q -> Q -> Q -> Lightcurve.

(** The contract of the series builder: built with the same
    [(tstart, tseg, dt)], two timestamp streams give series of one length. *)
Hypothesis series_contract :
  forall toa1 toa2 dt tstart tseg,
    length (lc_time (make_lightcurve toa1 dt tstart tseg)) =
    length (lc_time (make_lightcurve toa2 dt tstart tseg)).

Lemma covar_step_raises (events : Dict.t (list Q)) (dt min_time max_time : Q)
    (ref : band) (d : Dict.t (option pyfloat)) (energy : Q) (e : exception) :
  covar_step make_lightcurve events dt min_time max_time ref d energy = Raise e ->
  e <> AssertionError.
Proof.
  unfold covar_step.
  destruct (Dict.getitem events energy) as [toa|e'] eqn:G; simpl.
  - rewrite (series_contract toa (toa_ref events ref energy)).
    rewrite Nat.eqb_refl. simpl.
    destruct (_compute_covariance _ _) eqn:C; simpl; [discriminate|].
    intros R. injection R as <-.
    rewrite (compute_covariance_raises _ _ _ C). discriminate.
  - intros R. injection R as <-. rewrite (getitem_raises _ _ _ G). discriminate.
Qed.

Lemma construct_energy_covar_raises (band_interest : option (list band))
    (events : Dict.t (list Q)) (dt min_time max_time : Q) (ref : band)
    (e : exception) :
  _construct_energy_covar make_lightcurve band_interest events dt min_time
    max_time ref = Raise e ->
  e <> AssertionError.
Proof.
  unfold _construct_energy_covar.
  destruct (foldM _ _ _) eqn:F; simpl; [discriminate|].
  intros R. injection R as <-.
  exact (foldM_raises (fun e => e <> AssertionError) _ _ _ _
           (covar_step_raises events dt min_time max_time ref) F).
Qed.

Lemma run_pipeline_raises (event_list : list event) (dt : Q)
    (band_interest : option (list band)) (ref : band)
    (max_energy min_time max_time : Q) (e : exception) :
  run_pipeline make_lightcurve event_list dt band_interest ref max_energy
    min_time max_time = Raise e ->
  e <> AssertionError.
Proof.
  unfold run_pipeline.
  destruct (_construct_energy_events _ _) as [cells|e1] eqn:C; simpl.
  - destruct (_update_energy_events _ _) as [merged|e2] eqn:U; simpl.
    + apply construct_energy_covar_raises.
    + intros R. injection R as <-.
      rewrite (update_energy_events_raises _ _ _ U). discriminate.
  - intros R. injection R as <-.
    rewrite (construct_energy_events_raises _ _ _ C). discriminate.
Qed.

(** C5.  Under the contract of the series builder the length assertion of
    [_construct_energy_covar] holds for every evaluated key: the light curve
    of the key's events and the light curve of its reference stream are both
    built with [tstart = min_time] and [tseg = max_time - min_time].
    Consequently neither [_construct_energy_covar] nor the pipeline raises
    [AssertionError], and a constructor call whose band arguments are well
    shaped does not either. *)
Theorem C5_length_assertion_holds :
  (forall (events : Dict.t (list Q)) (dt min_time max_time : Q) (ref : band)
          (energy : Q) (toa : list Q),
      py_assert
        (Nat.eqb
           (length (lc_time (make_lightcurve toa dt min_time
                               (max_time - min_time))))
           (length (lc_time (make_lightcurve (toa_ref events ref energy) dt
                               min_time (max_time - min_time)))))
      = Return tt) /\
  (forall band_interest events dt min_time max_time ref,
      _construct_energy_covar make_lightcurve band_interest events dt min_time
        max_time ref <> Raise AssertionError) /\
  (forall event_list dt band_interest ref max_energy min_time max_time,
      run_pipeline make_lightcurve event_list dt band_interest ref max_energy
        min_time max_time <> Raise AssertionError) /\
  (forall event_list dt band_interest ref_band_interest,
      ref_ok ref_band_interest && bands_ok band_interest = true ->
      Covariancespectrum make_lightcurve event_list dt band_interest
        ref_band_interest <> Raise AssertionError).
Proof.
  split; [|split; [|split]].
  - intros. rewrite (series_contract toa (toa_ref events ref energy)).
    rewrite Nat.eqb_refl. reflexivity.
  - intros bi events dt min_time max_time ref R.
    exact (construct_energy_covar_raises _ _ _ _ _ _ _ R eq_refl).
  - intros event_list dt bi ref max_energy min_time max_time R.
    exact (run_pipeline_raises _ _ _ _ _ _ _ _ R eq_refl).
  - intros event_list dt bi rbi V R.
    destruct event_list as [|e0 rest] eqn:EL; [discriminate R|].
    rewrite <- EL in *.
    assert (NE : event_list <> []) by (rewrite EL; discriminate).
    destruct (constructor_checks_pass make_lightcurve event_list dt bi rbi NE V)
      as [min_energy [max_energy [min_time [max_time [_ [_ [_ [_ E]]]]]]]].
    rewrite E in R. exact (run_pipeline_raises _ _ _ _ _ _ _ _ R eq_refl).
Qed.

End SeriesBuilder.

Lemma make_lightcurve_model_contract (toa1 toa2 : list Q) (dt tstart tseg : Q) :
  length (lc_time (make_lightcurve_model toa1 dt tstart tseg)) =
  length (lc_time (make_lightcurve_model toa2 dt tstart tseg)).
Proof. reflexivity. Qed.

Lemma C5_length_assertion_holds_witness :
  run_pipeline make_lightcurve_model events_1_2_3_4 1 (Some [(1, 3); (2, 4)])
    (1, 4) 4 0 4 <> Raise AssertionError /\
  Covariancespectrum make_lightcurve_model events_1_2_3_4 1 None None
    <> Raise AssertionError.
Proof.
  pose proof (C5_length_assertion_holds make_lightcurve_model
                (fun toa1 toa2 dt tstart tseg => eq_refl)) as [_ [_ [P C]]].
  split; [apply P | apply C; reflexivity].
Defined.

(** ** The scenario of the documentation, end to end *)

(** Five events, [dt = 1], no bands, the default reference range: the
    constructor returns; there are two cells, keyed 2 and 4, the second one
    closed at the maximum energy 5, and the spectrum has two rows. *)
Example scenario_spectrum :
  exists obj,
    Covariancespectrum make_lightcurve_model events_scenario 1 None None
      = Return obj /\
    energy_events obj = [(4#2, [0; 1#2]); (8#2, [1; 3#2; 2])] /\
    map fst (covar obj) = [4#2; 8#2] /\
    exists c2 c4,
      Dict.get (energy_covar obj) 2 = Some (Some (Num c2)) /\
      Dict.get (energy_covar obj) 4 = Some (Some (Num c4)) /\
      c2 == -2 /\ c4 == -2.
Proof.
  eexists. split; [vm_compute; reflexivity|].
  split; [reflexivity|]. split; [reflexivity|].
  do 2 eexists. repeat split.
Qed.

(** * Further properties of the pipeline *)

(** ** What the partitioner puts into each cell *)

Ltac in_cases H :=
  simpl in H; repeat (destruct H as [<-|H]); try (destruct H).




Section Partitioner.

Variable event_list_T : list event.
Variables max_energy least_count : Q.

(** [max_energy] is the largest energy of the events. *)
Hypothesis max_bound : forall e, In e event_list_T -> energy_of e <= max_energy.
Hypothesis max_attained : exists e, In e event_list_T /\ energy_of e == max_energy.

(** There are two distinct energies, and [least_count] is their smallest gap. *)
Hypothesis least_count_eq :
  np_min (np_diff (np_unique (map energy_of event_list_T))) = Return least_count.












End Partitioner.





(** ** What the merge keeps, conserves and blanks *)

Lemma in_band_proper (b : band) (k k' : Q) : k == k' -> in_band b k = in_band b k'.
Proof.
  intros E. apply eq_true_iff_eq. rewrite !in_band_spec. split; intros [H1 H2]; split; lra.
Qed.

Lemma taken_by_proper (bands : list band) (k k' : Q) :
  k == k' -> taken_by bands k = taken_by bands k'.
Proof.
  intros E. unfold taken_by. induction bands as [|b bands IH]; simpl; [reflexivity|].
  rewrite (in_band_proper b k k' E), IH. reflexivity.
Qed.

Lemma get_filter_key {V : Type} (f : Q -> bool) (d : Dict.t V) (k : Q) :
  (forall k0, k0 == k -> f k0 = f k) ->
  Dict.get (filter (fun kv => f (fst kv)) d) k =
    if f k then Dict.get d k else None.
Proof.
  intros P. induction d as [|[k0 v0] d IH]; simpl.
  - destruct (f k); reflexivity.
  - destruct (Qeq_bool k0 k) eqn:E.
    + apply Qeq_bool_true in E. rewrite (P k0 E).
      destruct (f k) eqn:F; simpl.
      * rewrite (proj2 (Qeq_bool_true k0 k) E). reflexivity.
      * exact IH.
    + destruct (f k0); simpl; [rewrite E|]; exact IH.
Qed.

(** X5.  On a mapping without duplicate keys the merge never fails, and
    under every key that is not the midpoint of a band the merged mapping
    holds what the cells held when no band contains the key, and nothing when
    some band does: cells outside all bands stay live, merged cells are
    removed. *)
Theorem merge_keeps_untouched_cells (bands : list band) (cells : Dict.t (list Q)) :
  Dict.wf cells ->
  exists merged,
    _update_energy_events (Some bands) cells = Return merged /\
    forall k,
      (forall b, In b bands -> ~ mid_bin b == k) ->
      Dict.get merged k = if taken_by bands k then None else Dict.get cells k.
Proof.
  intros W. eexists. split; [apply update_energy_events_ok; exact W|].
  intros k H.
  rewrite get_update by (apply merge_pure_wf_acc; constructor).
  rewrite merge_pure_get_other by exact H. simpl.
  rewrite merge_pure_live.
  rewrite (get_filter_key (fun k => negb (taken_by bands k))).
  - destruct (taken_by bands k); reflexivity.
  - intros k0 E. rewrite (taken_by_proper bands k0 k E). reflexivity.
Qed.

Lemma merge_keeps_untouched_cells_witness :
  exists merged,
    _update_energy_events (Some [(1, 2); (5, 6)])
      [(3#2, [0]); (5#2, [1; 4]); (7#2, [2; 3])] = Return merged /\
    forall k,
      (forall b, In b [(1, 2); (5, 6)] -> ~ mid_bin b == k) ->
      Dict.get merged k =
        if taken_by [(1, 2); (5, 6)] k then None
        else Dict.get [(3#2, [0]); (5#2, [1; 4]); (7#2, [2; 3])] k.
Proof.
  apply (merge_keeps_untouched_cells [(1, 2); (5, 6)]).
  repeat constructor.
Defined.

Lemma values_filter_perm (f : Q * list Q -> bool) (d : Dict.t (list Q)) :
  Permutation (concat (Dict.values d))
    (concat (Dict.values (filter f d)) ++
     concat (Dict.values (filter (fun kv => negb (f kv)) d))).
Proof.
  induction d as [|[k v] d IH]; simpl; [constructor|].
  destruct (f (k, v)); simpl.
  - rewrite <- app_assoc. apply Permutation_app_head. exact IH.
  - eapply perm_trans; [apply Permutation_app_head; exact IH|].
    rewrite !app_assoc. apply Permutation_app_tail. apply Permutation_app_comm.
Qed.

Lemma values_app (d1 d2 : Dict.t (list Q)) :
  concat (Dict.values (d1 ++ d2)) = concat (Dict.values d1) ++ concat (Dict.values d2).
Proof. unfold Dict.values. rewrite map_app, concat_app. reflexivity. Qed.

Lemma merge_pure_conserves (bands : list band) (st : merge_state) :
  ForallOrdPairs (fun a b => ~ mid_bin a == mid_bin b) bands ->
  (forall b, In b bands -> Dict.get (snd st) (mid_bin b) = None) ->
  Permutation
    (concat (Dict.values (fst (fold_left merge_band_pure bands st))) ++
     concat (Dict.values (snd (fold_left merge_band_pure bands st))))
    (concat (Dict.values (fst st)) ++ concat (Dict.values (snd st))).
Proof.
  intros D. revert st. induction D as [|b bands Fb D IH]; intros st H; simpl.
  - apply Permutation_refl.
  - eapply perm_trans; [apply IH|].
    + intros b' Ib'. simpl. rewrite get_set_other.
      * apply H. right. exact Ib'.
      * exact (proj1 (Forall_forall _ _) Fb b' Ib').
    + simpl. rewrite set_absent by (apply H; left; reflexivity).
      rewrite values_app. simpl. rewrite app_nil_r.
      eapply perm_trans;
        [|apply Permutation_app_tail; apply Permutation_sym;
          apply (values_filter_perm (fun kv => in_band b (fst kv)))].
      unfold band_rest, band_cells.
      set (X := concat (Dict.values (filter (fun kv => in_band b (fst kv)) (fst st)))).
      set (Y := concat (Dict.values
                          (filter (fun kv => negb (in_band b (fst kv))) (fst st)))).
      set (Z := concat (Dict.values (snd st))).
      rewrite <- !app_assoc.
      eapply perm_trans; [apply Permutation_app_head; apply Permutation_app_comm|].
      rewrite !app_assoc. apply Permutation_app_tail. apply Permutation_app_comm.
Qed.

Lemma merge_pure_acc_keys (bands : list band) (st : merge_state) (k : Q) :
  In k (Dict.keys (snd (fold_left merge_band_pure bands st))) ->
  In k (Dict.keys (snd st)) \/ exists b, In b bands /\ k = mid_bin b.
Proof.
  revert st. induction bands as [|b bands IH]; intros st; simpl; [tauto|].
  intros I. destruct (IH _ I) as [I'|[b' [Ib' E]]].
  - simpl in I'. clear -I'. revert I'.
    induction (snd st) as [|[k0 v0] d IHd]; simpl.
    + intros [E|[]]. right. exists b. split; [left; reflexivity | symmetry; exact E].
    + destruct (Qeq_bool k0 (mid_bin b)); simpl; [tauto|].
      intros [E|I']; [left; left; exact E|].
      destruct (IHd I') as [L|R]; [left; right; exact L | right; exact R].
  - right. exists b'. split; [right; exact Ib' | exact E].
Qed.

Lemma get_none_key_neq {V : Type} (d : Dict.t V) (k k' : Q) :
  Dict.get d k = None -> In k' (Dict.keys d) -> ~ k' == k.
Proof.
  induction d as [|[k0 v0] d IH]; simpl; [tauto|].
  destruct (Qeq_bool k0 k) eqn:E; [discriminate|].
  intros G [<-|I]; [apply Qeq_bool_false; exact E | apply IH; assumption].
Qed.

(** Updating with a dict whose keys are all new appends it. *)
Lemma update_disjoint {V : Type} (d2 d : Dict.t V) :
  Dict.wf d2 ->
  (forall k, In k (Dict.keys d2) -> Dict.get d k = None) ->
  Dict.update d d2 = d ++ d2.
Proof.
  intros W. revert d. induction W as [|k v d2 H W IH]; intros d P.
  - unfold Dict.update. simpl. rewrite app_nil_r. reflexivity.
  - unfold Dict.update in *. simpl.
    rewrite set_absent by (apply P; left; reflexivity).
    rewrite IH.
    + rewrite <- app_assoc. reflexivity.
    + intros k' Ik'. apply get_none_app. split; [apply P; right; exact Ik'|].
      simpl. rewrite (proj2 (Qeq_bool_false k k')); [reflexivity|].
      intros E. apply (get_none_key_neq d2 k k' H Ik'). lra.
Qed.

Lemma merge_pure_acc_keys_distinct (bands : list band) (st : merge_state) :
  ForallOrdPairs (fun a b => ~ mid_bin a == mid_bin b) bands ->
  (forall b, In b bands -> Dict.get (snd st) (mid_bin b) = None) ->
  Dict.keys (snd (fold_left merge_band_pure bands st)) =
    Dict.keys (snd st) ++ map mid_bin bands.
Proof.
  intros D. revert st. induction D as [|b bands Fb D IH]; intros st H; simpl.
  - rewrite app_nil_r. reflexivity.
  - rewrite IH.
    + simpl. rewrite set_absent by (apply H; left; reflexivity).
      unfold Dict.keys. rewrite map_app, <- app_assoc. reflexivity.
    + intros b' Ib'. simpl. rewrite get_set_other.
      * apply H. right. exact Ib'.
      * exact (proj1 (Forall_forall _ _) Fb b' Ib').
Qed.

(** X6.  When every band has [low <= high] and no two bands share a midpoint,
    the merge conserves the events: the merged mapping lists the cells that no
    band contains, in their order, followed by one entry per band in band
    order, and its event lists, taken together, are a permutation of those of
    the cells. *)
Theorem merge_conserves_events (bands : list band) (cells : Dict.t (list Q)) :
  Dict.wf cells ->
  (forall b, In b bands -> fst b <= snd b) ->
  ForallOrdPairs (fun a b => ~ mid_bin a == mid_bin b) bands ->
  exists merged,
    _update_energy_events (Some bands) cells = Return merged /\
    Dict.keys merged =
      Dict.keys (filter (fun kv => negb (taken_by bands (fst kv))) cells) ++
      map mid_bin bands /\
    Permutation (concat (Dict.values merged)) (concat (Dict.values cells)).
Proof.
  intros W O D. eexists. split; [apply update_energy_events_ok; exact W|].
  assert (E : Dict.update (fst (fold_left merge_band_pure bands (cells, [])))
                (snd (fold_left merge_band_pure bands (cells, []))) =
              filter (fun kv => negb (taken_by bands (fst kv))) cells ++
              snd (fold_left merge_band_pure bands (cells, []))).
  { rewrite update_disjoint.
    - rewrite merge_pure_live. reflexivity.
    - apply merge_pure_wf_acc. constructor.
    - intros k Ik. apply merge_pure_acc_keys in Ik.
      destruct Ik as [[]|[b [Ib ->]]].
      rewrite merge_pure_live.
      rewrite (get_filter_key (fun k => negb (taken_by bands k)));
        [|intros k0 E; rewrite (taken_by_proper bands k0 _ E); reflexivity].
      assert (T : taken_by bands (mid_bin b) = true).
      { unfold taken_by. apply existsb_exists. exists b. split; [exact Ib|].
        apply in_band_spec. pose proof (O b Ib). unfold mid_bin.
        split; apply Qle_shift_div_l || apply Qle_shift_div_r; lra. }
      rewrite T. reflexivity. }
  rewrite E. split.
  - unfold Dict.keys at 1. rewrite map_app. f_equal.
    apply (merge_pure_acc_keys_distinct bands (cells, []) D). reflexivity.
  - rewrite values_app.
    rewrite <- merge_pure_live with (acc := []).
    eapply perm_trans; [apply merge_pure_conserves; [exact D | reflexivity]|].
    simpl. rewrite app_nil_r. apply Permutation_refl.
Qed.

Lemma merge_conserves_events_witness :
  exists merged,
    _update_energy_events (Some [(1, 2); (3, 4)])
      [(3#2, [0]); (5#2, [1; 4]); (7#2, [2; 3])] = Return merged /\
    Dict.keys merged =
      Dict.keys (filter (fun kv => negb (taken_by [(1, 2); (3, 4)] (fst kv)))
                   [(3#2, [0]); (5#2, [1; 4]); (7#2, [2; 3])]) ++
      map mid_bin [(1, 2); (3, 4)] /\
    Permutation (concat (Dict.values merged))
      (concat (Dict.values [(3#2, [0]); (5#2, [1; 4]); (7#2, [2; 3])])).
Proof.
  apply (merge_conserves_events [(1, 2); (3, 4)]).
  - repeat constructor.
  - intros b I. in_cases I; discriminate.
  - repeat constructor. intros H. discriminate H.
Defined.

Lemma merge_skips_all (b : band) (ks : list Q) (st : merge_state) :
  (forall k, In k ks -> in_band b k = false) ->
  foldM (merge_key b) ks st = Return st.
Proof.
  induction ks as [|k ks IH]; intros H; simpl; [reflexivity|].
  destruct st as [d acc]. unfold merge_key at 1.
  rewrite (H k) by (left; reflexivity). simpl.
  apply IH. intros k' I. apply H. right. exact I.
Qed.

(** X7.  A band given with [high < low] contains no key, so it merges no
    cell; yet it is stored under its midpoint with an empty list, which
    replaces the event list of a live cell keyed at that midpoint (and is
    appended as a new entry otherwise). *)
Theorem reversed_band_blanks_midpoint (b : band) (cells : Dict.t (list Q)) :
  snd b < fst b ->
  _update_energy_events (Some [b]) cells = Return (Dict.set cells (mid_bin b) []).
Proof.
  intros R. unfold _update_energy_events. simpl. unfold merge_band.
  rewrite merge_skips_all; [reflexivity|].
  intros k _. destruct (in_band b k) eqn:E; [|reflexivity].
  apply in_band_spec in E. lra.
Qed.

Lemma reversed_band_blanks_midpoint_witness :
  _update_energy_events (Some [(4, 1)])
    [(3#2, [0]); (5#2, [1; 4]); (7#2, [2; 3])] =
  Return [(3#2, [0]); (5#2, []); (7#2, [2; 3])].
Proof.
  apply (reversed_band_blanks_midpoint (4, 1)
           [(3#2, [0]); (5#2, [1; 4]); (7#2, [2; 3])]).
  reflexivity.
Defined.

(** ** Which errors the constructor can raise, and when it returns *)



Lemma construct_energy_events_wf (max_energy : Q) (event_list_T : list event)
    (cells : Dict.t (list Q)) :
  _construct_energy_events max_energy event_list_T = Return cells -> Dict.wf cells.
Proof.
  intros E.
  destruct (np_min (np_diff (np_unique (map energy_of event_list_T))))
    as [lc|e] eqn:M.
  - rewrite (construct_energy_events_closed _ _ _ M) in E. injection E as <-.
    apply (cells_wf lc (fun u => cell_toa event_list_T max_energy lc (cell_key lc u))).
    apply removelast_sorted. apply np_unique_sorted.
  - unfold _construct_energy_events in E. rewrite M in E. discriminate E.
Qed.











Section SeriesBuilderTotal.

Variable make_lightcurve : list Q -> Q -> Q -> Q -> Lightcurve.

(** Built with the same [(tstart, tseg, dt)], two timestamp streams give as
    many time stamps and as many counts. *)
Hypothesis time_contract :
  forall toa1 toa2 dt tstart tseg,
    length (lc_time (make_lightcurve toa1 dt tstart tseg)) =
    length (lc_time (make_lightcurve toa2 dt tstart tseg)).
Hypothesis counts_contract :
  forall toa1 toa2 dt tstart tseg,
    length (lc_counts (make_lightcurve toa1 dt tstart tseg)) =
    length (lc_counts (make_lightcurve toa2 dt tstart tseg)).



End SeriesBuilderTotal.


(** ** The rows of the spectrum *)

Lemma fold_set_wf {V A : Type} (g : A -> Q) (v : V) (l : list A) (d0 : Dict.t V) :
  Dict.wf d0 -> Dict.wf (fold_left (fun d x => Dict.set d (g x) v) l d0).
Proof.
  revert d0. induction l as [|x l IH]; intros d0 W; simpl; [exact W|].
  apply IH. apply wf_set. exact W.
Qed.

Lemma fold_set_fresh_keys {V A : Type} (g : A -> Q) (v : V) (l : list A)
    (d0 : Dict.t V) :
  ForallOrdPairs (fun a b => ~ g a == g b) l ->
  (forall x, In x l -> Dict.get d0 (g x) = None) ->
  Dict.keys (fold_left (fun d x => Dict.set d (g x) v) l d0) =
    Dict.keys d0 ++ map g l.
Proof.
  intros D. revert d0. induction D as [|x l Fx D IH]; intros d0 H; simpl.
  - rewrite app_nil_r. reflexivity.
  - rewrite IH.
    + rewrite set_absent by (apply H; left; reflexivity).
      unfold Dict.keys. rewrite map_app, <- app_assoc. reflexivity.
    + intros y Iy. rewrite get_set_other.
      * apply H. right. exact Iy.
      * exact (proj1 (Forall_forall _ _) Fx y Iy).
Qed.

Lemma wf_keys_distinct {V : Type} (d : Dict.t V) :
  Dict.wf d -> ForallOrdPairs (fun a b => ~ a == b) (Dict.keys d).
Proof.
  induction 1 as [|k v d H W IH]; simpl; constructor; [|exact IH].
  apply Forall_forall. intros k' Ik' E.
  apply (get_none_key_neq d k k' H Ik'). lra.
Qed.

Lemma wf_in_get {V : Type} (d : Dict.t V) (k : Q) (v : V) :
  Dict.wf d -> In (k, v) d -> Dict.get d k = Some v.
Proof.
  induction 1 as [|k0 v0 d H W IH]; simpl; [tauto|].
  intros [E|I].
  - injection E as -> ->. rewrite (proj2 (Qeq_bool_true k k)) by reflexivity.
    reflexivity.
  - destruct (Qeq_bool k0 k) eqn:Ek; [|exact (IH I)].
    exfalso. apply Qeq_bool_true in Ek.
    apply (get_none_key_neq d k0 k H); [|lra].
    apply (in_map fst d (k, v)). exact I.
Qed.

Lemma covar_step_sets (make_lightcurve : list Q -> Q -> Q -> Q -> Lightcurve)
    (events : Dict.t (list Q)) (dt min_time max_time : Q) (ref : band)
    (d d' : Dict.t (option pyfloat)) (energy : Q) :
  covar_step make_lightcurve events dt min_time max_time ref d energy = Return d' ->
  exists c, d' = Dict.set d energy (Some c).
Proof.
  unfold covar_step.
  destruct (Dict.getitem events energy); simpl; [|discriminate].
  destruct (py_assert _); simpl; [|discriminate].
  destruct (_compute_covariance _ _) as [c|]; simpl; [|discriminate].
  intros E. injection E as <-. exists c. reflexivity.
Qed.

Lemma covar_loop_keeps (make_lightcurve : list Q -> Q -> Q -> Q -> Lightcurve)
    (events : Dict.t (list Q)) (dt min_time max_time : Q) (ref : band)
    (ks : list Q) (d0 d : Dict.t (option pyfloat)) (k : Q) :
  foldM (covar_step make_lightcurve events dt min_time max_time ref) ks d0 = Return d ->
  (exists c, Dict.get d0 k = Some (Some c)) ->
  exists c, Dict.get d k = Some (Some c).
Proof.
  revert d0. induction ks as [|k0 ks IH]; intros d0; simpl.
  - intros E. injection E as <-. tauto.
  - destruct (covar_step _ _ _ _ _ _ d0 k0) as [d1|] eqn:S; simpl; [|discriminate].
    intros F [c G]. apply (IH d1 F).
    destruct (covar_step_sets _ _ _ _ _ _ _ _ _ S) as [c1 ->].
    destruct (Qeq_bool k0 k) eqn:E.
    + apply Qeq_bool_true in E. exists c1.
      rewrite <- (get_proper _ _ _ E). apply get_set_same.
    + exists c. rewrite get_set_other by (apply Qeq_bool_false; exact E). exact G.
Qed.

Lemma covar_loop_assigns (make_lightcurve : list Q -> Q -> Q -> Q -> Lightcurve)
    (events : Dict.t (list Q)) (dt min_time max_time : Q) (ref : band)
    (ks : list Q) (d0 d : Dict.t (option pyfloat)) (k : Q) :
  foldM (covar_step make_lightcurve events dt min_time max_time ref) ks d0 = Return d ->
  In k ks -> exists c, Dict.get d k = Some (Some c).
Proof.
  revert d0. induction ks as [|k0 ks IH]; intros d0; simpl; [tauto|].
  destruct (covar_step _ _ _ _ _ _ d0 k0) as [d1|] eqn:S; simpl; [|discriminate].
  intros F [<-|I].
  - apply (covar_loop_keeps _ _ _ _ _ _ _ _ _ _ F).
    destruct (covar_step_sets _ _ _ _ _ _ _ _ _ S) as [c1 ->].
    exists c1. apply get_set_same.
  - exact (IH d1 F I).
Qed.

Lemma covar_loop_wf (make_lightcurve : list Q -> Q -> Q -> Q -> Lightcurve)
    (events : Dict.t (list Q)) (dt min_time max_time : Q) (ref : band)
    (ks : list Q) (d0 d : Dict.t (option pyfloat)) :
  foldM (covar_step make_lightcurve events dt min_time max_time ref) ks d0 = Return d ->
  Dict.wf d0 -> Dict.wf d.
Proof.
  revert d0. induction ks as [|k0 ks IH]; intros d0; simpl.
  - intros E. injection E as <-. tauto.
  - destruct (covar_step _ _ _ _ _ _ d0 k0) as [d1|] eqn:S; simpl; [|discriminate].
    intros F W. apply (IH d1 F).
    destruct (covar_step_sets _ _ _ _ _ _ _ _ _ S) as [c1 ->].
    apply wf_set. exact W.
Qed.

Lemma init_energy_covar_wf (band_interest : option (list band))
    (events : Dict.t (list Q)) :
  Dict.wf (_init_energy_covar band_interest events).
Proof.
  destruct band_interest as [bands|]; simpl; apply fold_set_wf; constructor.
Qed.

(** X10.  In every object [_construct_energy_covar] returns, each row of
    the spectrum carries a computed covariance (no placeholder of the
    initialisation is left) and no two rows share a key.  Without bands, on a
    mapping without duplicate keys, the rows follow the keys of the mapping;
    with bands of pairwise different midpoints, the rows follow the bands. *)
Theorem spectrum_rows (make_lightcurve : list Q -> Q -> Q -> Q -> Lightcurve)
    (band_interest : option (list band)) (events : Dict.t (list Q))
    (dt min_time max_time : Q) (ref : band) (obj : Covariancespectrum_obj) :
  _construct_energy_covar make_lightcurve band_interest events dt min_time max_time
    ref = Return obj ->
  (forall key v, In (key, v) (covar obj) -> exists c, v = Some c) /\
  Dict.wf (covar obj) /\
  (band_interest = None -> Dict.wf events ->
   map fst (covar obj) = Dict.keys events) /\
  (forall bands,
      band_interest = Some bands ->
      ForallOrdPairs (fun a b => ~ mid_bin a == mid_bin b) bands ->
      map fst (covar obj) = map mid_bin bands).
Proof.
  intros E. pose proof (construct_energy_covar_keys _ _ _ _ _ _ _ _ E) as [K _].
  unfold _construct_energy_covar in E.
  destruct (foldM _ _ _) as [d|e] eqn:F; simpl in E; [|discriminate].
  injection E as <-. simpl in *. unfold Dict.items in *.
  pose proof (covar_loop_wf _ _ _ _ _ _ _ _ _ F (init_energy_covar_wf _ _)) as W.
  split; [|split; [exact W|split]].
  - intros key v I.
    destruct (covar_loop_assigns _ _ _ _ _ _ _ _ _ key F) as [c G].
    + rewrite <- K. apply (in_map fst d (key, v)). exact I.
    + rewrite (wf_in_get d key v W I) in G. injection G as ->. exists c. reflexivity.
  - intros -> We. rewrite K. simpl.
    rewrite (fold_set_fresh_keys (fun key : Q => key)).
    + simpl. apply map_id.
    + apply wf_keys_distinct. exact We.
    + reflexivity.
  - intros bands -> D. rewrite K. simpl.
    rewrite (fold_set_fresh_keys mid_bin); [reflexivity | exact D | reflexivity].
Qed.

Lemma spectrum_rows_witness :
  exists obj,
    _construct_energy_covar make_lightcurve_model (Some [(1, 2); (3, 4)])
      [(7#2, [2; 3]); (3#2, [0; 1])] 1 0 4 (1, 4) = Return obj /\
    (forall key v, In (key, v) (covar obj) -> exists c, v = Some c) /\
    map fst (covar obj) = map mid_bin [(1, 2); (3, 4)].
Proof.
  eexists. split; [vm_compute; reflexivity|].
  destruct (spectrum_rows make_lightcurve_model (Some [(1, 2); (3, 4)])
              [(7#2, [2; 3]); (3#2, [0; 1])] 1 0 4 (1, 4) _ eq_refl)
    as [R [_ [_ B]]].
  split; [exact R|]. apply (B _ eq_refl).
  repeat constructor. intros H. discriminate H.
Defined.

(** ** The default reference range *)

Lemma filter_key_absent {V : Type} (d : Dict.t V) (k : Q) :
  Dict.get d k = None -> filter (fun kv => negb (Qeq_bool (fst kv) k)) d = d.
Proof.
  induction d as [|[k0 v0] d IH]; simpl; [reflexivity|].
  destruct (Qeq_bool k0 k); [discriminate|]. simpl. intros H. rewrite (IH H).
  reflexivity.
Qed.

(** X11.  Without bands and with the default reference range
    [(min_energy, max_energy)], every cell key lies in the range, so the
    reference stream of a cell is the sorted concatenation of all the other
    cells: a cell's events and its reference stream together are a
    permutation of the events of all the cells. *)
Theorem default_reference_is_the_other_cells (event_list : list event)
    (min_energy max_energy : Q) (cells : Dict.t (list Q)) :
  np_min (map energy_of event_list) = Return min_energy ->
  np_max (map energy_of event_list) = Return max_energy ->
  _construct_energy_events max_energy (argsort_energy event_list) = Return cells ->
  forall key toa,
    In (key, toa) cells ->
    toa_ref cells (min_energy, max_energy) key =
      sorted (concat (Dict.values
                        (filter (fun kv => negb (Qeq_bool (fst kv) key)) cells))) /\
    Permutation (toa ++ toa_ref cells (min_energy, max_energy) key)
      (concat (Dict.values cells)).
Proof.
  intros Emin Emax C key toa I.
  pose proof (construct_energy_events_wf _ _ _ C) as W.
  set (T := argsort_energy event_list) in *.
  assert (B : forall e, In e T -> min_energy <= energy_of e <= max_energy).
  { intros e Ie. apply (proj1 (argsort_energy_in event_list e)) in Ie.
    assert (In (energy_of e) (map energy_of event_list)) by (apply in_map; exact Ie).
    split; [eapply np_min_le | eapply np_max_ge]; eassumption. }
  assert (A : forall kv, In kv cells -> in_band (min_energy, max_energy) (fst kv) = true).
  { destruct (np_min (np_diff (np_unique (map energy_of T)))) as [lc|e] eqn:M.
    - rewrite (construct_energy_events_closed _ _ _ M) in C. injection C as <-.
      intros kv Ikv. apply in_map_iff in Ikv. destruct Ikv as [u [<- Iu]].
      apply in_band_spec. simpl.
      exact (cell_key_in_range T min_energy max_energy lc u B M Iu).
    - unfold _construct_energy_events in C. rewrite M in C. discriminate C. }
  assert (E : toa_ref cells (min_energy, max_energy) key =
              sorted (concat (Dict.values
                        (filter (fun kv => negb (Qeq_bool (fst kv) key)) cells)))).
  { unfold toa_ref, Dict.items. rewrite toa_ref_loop. simpl. do 3 f_equal.
    apply filter_ext_in. intros kv Ikv. unfold in_reference.
    rewrite (A kv Ikv). reflexivity. }
  split; [exact E|]. rewrite E.
  destruct (in_split _ _ I) as [pre [post ->]].
  destruct (wf_app_inv _ _ W) as [_ Wp]. inversion Wp as [|? ? ? Gpost _]; subst.
  rewrite filter_app. simpl.
  rewrite (proj2 (Qeq_bool_true key key)) by reflexivity. simpl.
  rewrite (filter_key_absent pre key (wf_app_head_absent _ _ _ _ W)).
  rewrite (filter_key_absent post key Gpost).
  rewrite !values_app. simpl.
  eapply perm_trans; [apply Permutation_app_head; apply sorted_perm|].
  apply Permutation_app_swap_app.
Qed.

Lemma default_reference_is_the_other_cells_witness :
  toa_ref [(3#2, [0]); (5#2, [1; 4]); (7#2, [2; 3])] (1, 4) (5#2) =
    sorted (concat (Dict.values
                      (filter (fun kv => negb (Qeq_bool (fst kv) (5#2)))
                         [(3#2, [0]); (5#2, [1; 4]); (7#2, [2; 3])]))) /\
  Permutation ([1; 4] ++ toa_ref [(3#2, [0]); (5#2, [1; 4]); (7#2, [2; 3])] (1, 4) (5#2))
    (concat (Dict.values [(3#2, [0]); (5#2, [1; 4]); (7#2, [2; 3])])).
Proof.
  apply (default_reference_is_the_other_cells events_1_2_3_4 1 4).
  - reflexivity.
  - reflexivity.
  - exact construct_1_2_3_4.
  - right. left. reflexivity.
Defined.

(** ** More on the covariance engine *)

(** X12.  [_compute_covariance] is symmetric: with the two light curves
    swapped it raises the same exception, or returns [nan] again, or returns
    an equal number. *)
Theorem compute_covariance_symmetric (lc1 lc2 : Lightcurve) :
  same_covariance (_compute_covariance lc1 lc2) (_compute_covariance lc2 lc1).
Proof.
  destruct lc1 as [t1 x], lc2 as [t2 y].
  unfold _compute_covariance, np_cov. simpl lc_counts.
  rewrite (Nat.eqb_sym (length y) (length x)).
  destruct (Nat.eqb (length x) (length y)) eqn:L; simpl.
  - apply Nat.eqb_eq in L. rewrite L.
    destruct (Z.of_nat (length y) - 1 <=? 0)%Z; simpl; [exact I|].
    rewrite (dot_comm (center x) (center y)). reflexivity.
  - reflexivity.
Qed.


